(** * Conversation sanitisation and guardrail recovery of the Workers AI chatbot

    A shallow embedding of the worker ([buildModelMessages],
    [parseGatewayError], [handleChatRequest]) and of the browser client
    ([sendMessage], [popLastUserTurn], [rememberBlockedUser], [mapError]),
    followed by the properties of the sanitisation protocol.

    The worker receives whatever [JSON.parse] produced, so its functions are
    embedded over untyped JavaScript values with an explicit completion type
    for exceptions; the client builds its own messages and is embedded over
    records. *)

From Stdlib Require Import ZArith String Ascii List Bool Lia.
From stdpp Require Import base tactics option list gmap strings pretty.

Local Open Scope string_scope.
Local Open Scope Z_scope.
Local Open Scope list_scope.
Set Warnings "-register-all".

(** ** JavaScript values and completions *)

Module JS.

(** The values [JSON.parse] can produce, plus [undefined].  Numbers are
    carried as integers: the program only compares them with the integer
    literals 2016 and 2017 and passes HTTP status codes through. *)
Inductive value : Type :=
| VUndefined
| VNull
| VBool (b : bool)
| VNum (n : Z)
| VStr (s : string)
| VArr (elems : list value)
| VObj (props : list (string * value)).

Inductive error : Type :=
| TypeError
| RangeError
| SyntaxError
| Rejected.

(** The outcome of evaluating an expression or a block. *)
Inductive completion (A : Type) : Type :=
| Normal (a : A)
| Throw (e : error).
Arguments Normal {A} a.
Arguments Throw {A} e.

#[global] Instance completion_ret : MRet completion := fun A a => Normal a.
#[global] Instance completion_bind : MBind completion :=
  fun A B f m => match m with Normal a => f a | Throw e => Throw e end.

(** [try { m } catch { h }] *)
Definition try_catch {A} (m : completion A) (h : error -> completion A)
  : completion A :=
  match m with Normal a => Normal a | Throw e => h e end.

Definition nullish (v : value) : bool :=
  match v with VUndefined | VNull => true | _ => false end.

Fixpoint assoc (k : string) (props : list (string * value)) : value :=
  match props with
  | [] => VUndefined
  | (k', v) :: rest => if bool_decide (k' = k) then v else assoc k rest
  end.

(** The value of [v.k] when [v] is neither [null] nor [undefined], for the
    property names this program reads ([role], [content], [error],
    [errors], [message], [detail], [msg], [code], [messages],
    [blockedUserContents]): none of them is inherited from a prototype,
    so only an object's own properties answer. *)
Definition prop (v : value) (k : string) : value :=
  match v with
  | VObj props => assoc k props
  | _ => VUndefined
  end.

(** [v.k]: reading a property of [null] or [undefined] throws. *)
Definition get (v : value) (k : string) : completion value :=
  if nullish v then Throw TypeError else Normal (prop v k).

(** [v?.k] *)
Definition get_opt (v : value) (k : string) : value :=
  if nullish v then VUndefined else prop v k.

Definition typeof (v : value) : string :=
  match v with
  | VUndefined => "undefined"
  | VNull => "object"
  | VBool _ => "boolean"
  | VNum _ => "number"
  | VStr _ => "string"
  | VArr _ => "object"
  | VObj _ => "object"
  end.

Definition truthy (v : value) : bool :=
  match v with
  | VUndefined | VNull => false
  | VBool b => b
  | VNum n => negb (n =? 0)
  | VStr s => negb (bool_decide (s = ""))
  | VArr _ | VObj _ => true
  end.

Definition isArray (v : value) : bool :=
  match v with VArr _ => true | _ => false end.

(** [v === "s"] for a string literal. *)
Definition is_str (v : value) (s : string) : bool :=
  match v with VStr t => bool_decide (t = s) | _ => false end.

(** [v === n] for a number literal. *)
Definition is_num (v : value) (n : Z) : bool :=
  match v with VNum m => m =? n | _ => false end.

(** [a[i]]: out of range reads give [undefined]. *)
Definition index (a : list value) (i : nat) : value :=
  default VUndefined (a !! i).

(** [a || b] and [a && b] on values. *)
Definition or_else (a b : value) : value := if truthy a then a else b.
Definition and_then (a b : value) : value := if truthy a then b else a.

(** SameValueZero, the comparison of [Set.prototype.has].  Objects and
    arrays compare by identity; two values read from different places of
    a parsed body are never the same object. *)
Definition same_value_zero (a b : value) : bool :=
  match a, b with
  | VUndefined, VUndefined => true
  | VNull, VNull => true
  | VBool x, VBool y => Bool.eqb x y
  | VNum x, VNum y => x =? y
  | VStr x, VStr y => bool_decide (x = y)
  | _, _ => false
  end.

(** A [Set] built by [new Set(array)], kept as the array it was built
    from. *)
Definition Set_has (s : list value) (x : value) : bool :=
  existsb (same_value_zero x) s.

(** *** Strings *)

Definition lower (c : ascii) : ascii :=
  let n := nat_of_ascii c in
  if ((65 <=? n) && (n <=? 90))%nat then ascii_of_nat (n + 32) else c.

Fixpoint starts_with_ci (p s : string) : bool :=
  match p, s with
  | EmptyString, _ => true
  | String _ _, EmptyString => false
  | String a p', String b s' =>
      bool_decide (lower a = lower b) && starts_with_ci p' s'
  end.

(** [/p/i.test(s)] for a pattern [p] of ASCII letters and spaces: a
    case-insensitive substring search.  Without the [u] flag a
    non-ASCII character never matches an ASCII one, and in UTF-8 no
    ASCII byte occurs inside a longer sequence. *)
Fixpoint test_ci (p s : string) : bool :=
  starts_with_ci p s ||
  match s with
  | EmptyString => false
  | String _ s' => test_ci p s'
  end.

Fixpoint join (sep : string) (l : list string) : string :=
  match l with
  | [] => ""
  | [x] => x
  | x :: rest => (x ++ sep ++ join sep rest)%string
  end.

(** Whether the object has an own property [k]. *)
Fixpoint has_own (k : string) (props : list (string * value)) : bool :=
  match props with
  | [] => false
  | (k', _) :: rest => bool_decide (k' = k) || has_own k rest
  end.

(** [String(v)], the coercion [RegExp.prototype.test] applies to its
    argument.  An array is joined with commas, [null] and [undefined]
    elements counting as empty.  An object answers through the
    [toString] it inherits, which gives [[object Object]], unless it has
    an own property [toString]: the values of a parsed body are not
    callable, so the conversion then finds no primitive and throws. *)
Fixpoint to_string (v : value) : completion string :=
  match v with
  | VUndefined => Normal "undefined"
  | VNull => Normal "null"
  | VBool true => Normal "true"
  | VBool false => Normal "false"
  | VNum n => Normal (pretty n)
  | VStr s => Normal s
  | VArr elems =>
      match
        (fix parts (l : list value) : completion (list string) :=
           match l with
           | [] => Normal []
           | e :: rest =>
               match (if nullish e then Normal "" else to_string e) with
               | Normal p =>
                   match parts rest with
                   | Normal ps => Normal (p :: ps)
                   | Throw err => Throw err
                   end
               | Throw err => Throw err
               end
           end) elems
      with
      | Normal ps => Normal (join "," ps)
      | Throw err => Throw err
      end
  | VObj props =>
      if has_own "toString" props then Throw TypeError
      else Normal "[object Object]"
  end.

(** *** [TextDecoder]

    Texts are kept as their UTF-8 bytes, so that decoding a chunk leaves
    its well-formed sequences as they are and puts U+FFFD where the
    decoder reports an error. *)

(** U+FFFD and U+FEFF in UTF-8. *)
Definition REPLACEMENT : string :=
  String (ascii_of_nat 239) (String (ascii_of_nat 191)
    (String (ascii_of_nat 189) "")).
Definition BOM : string :=
  String (ascii_of_nat 239) (String (ascii_of_nat 187)
    (String (ascii_of_nat 191) "")).

(** The decoder between two bytes: how many bytes the sequence begun
    still needs, the bounds on the next one, and the bytes of the
    sequence read so far. *)
Record utf8_state : Type := mkUtf8 {
  bytes_needed : nat;
  lower_bound : nat;
  upper_bound : nat;
  bytes_seen : string
}.

Definition utf8_start : utf8_state :=
  {| bytes_needed := 0; lower_bound := 128; upper_bound := 191;
     bytes_seen := "" |}.

Definition in_range (lo hi b : nat) : bool :=
  ((lo <=? b) && (b <=? hi))%nat.

(** A byte met when no sequence is begun: what is written, and the state
    after it. *)
Definition utf8_lead (c : ascii) : string * utf8_state :=
  let b := nat_of_ascii c in
  if in_range 0 127 b then (String c "", utf8_start)
  else if in_range 194 223 b then
    ("", {| bytes_needed := 1; lower_bound := 128; upper_bound := 191;
            bytes_seen := String c "" |})
  else if in_range 224 239 b then
    ("", {| bytes_needed := 2;
            lower_bound := if (b =? 224)%nat then 160 else 128;
            upper_bound := if (b =? 237)%nat then 159 else 191;
            bytes_seen := String c "" |})
  else if in_range 240 244 b then
    ("", {| bytes_needed := 3;
            lower_bound := if (b =? 240)%nat then 144 else 128;
            upper_bound := if (b =? 244)%nat then 143 else 191;
            bytes_seen := String c "" |})
  else (REPLACEMENT, utf8_start).

(** One byte: a byte outside the bounds ends the sequence begun with an
    error and is then read again as the first byte of a sequence. *)
Definition utf8_byte (st : utf8_state) (c : ascii) : string * utf8_state :=
  if (bytes_needed st =? 0)%nat then utf8_lead c
  else if in_range (lower_bound st) (upper_bound st) (nat_of_ascii c) then
    if (bytes_needed st =? 1)%nat
    then ((bytes_seen st ++ String c "")%string, utf8_start)
    else ("", {| bytes_needed := bytes_needed st - 1;
                 lower_bound := 128; upper_bound := 191;
                 bytes_seen := (bytes_seen st ++ String c "")%string |})
  else
    let '(out, st') := utf8_lead c in ((REPLACEMENT ++ out)%string, st').

Fixpoint utf8_bytes (st : utf8_state) (bytes : string) : string :=
  match bytes with
  | EmptyString => if (bytes_needed st =? 0)%nat then "" else REPLACEMENT
  | String c rest =>
      let '(out, st') := utf8_byte st c in
      (out ++ utf8_bytes st' rest)%string
  end.

Definition strip_BOM (text : string) : string :=
  match text with
  | String a (String b (String c rest)) =>
      if bool_decide (String a (String b (String c "")) = BOM)
      then rest else text
  | _ => text
  end.

(** [new TextDecoder().decode(bytes)], each call on its own: a sequence
    the chunk ends in the middle of is an error, and a byte order mark at
    the head of the chunk is dropped. *)
Definition TextDecoder_decode (bytes : string) : string :=
  strip_BOM (utf8_bytes utf8_start bytes).

End JS.

Import JS.

(** ** The worker *)

Module Server.

Definition SYSTEM_PROMPT : string :=
  "You are a helpful, friendly assistant. Provide concise and accurate responses.".
Definition SAFETY_SHIM : string :=
  "If a user asks for illegal, violent, or harmful instructions, refuse briefly and suggest safer, educational alternatives.".

Definition newline : string := String (ascii_of_nat 10) "".

(** The one message [buildModelMessages] pushes onto [msgs]. *)
Definition system_message : value :=
  VObj [("role", VStr "system");
        ("content",
         VStr (SYSTEM_PROMPT ++ newline ++ newline ++ "Safety: " ++ SAFETY_SHIM)%string)].

(** [m.role === "user" && typeof m.content === "string" &&
    blockedUserContents.has(m.content)] *)
Definition is_blocked_user (blocked : list value) (m : value) : completion bool :=
  r ← get m "role";
  if is_str r "user" then
    c ← get m "content";
    if bool_decide (typeof c = "string") then
      c' ← get m "content";
      mret (Set_has blocked c')
    else mret false
  else mret false.

(** [m.role === "assistant" && typeof m.content === "string" &&
    /blocked by guardrails/i.test(m.content)] *)
Definition looksLikeGuardrailNotice (m : value) : completion bool :=
  r ← get m "role";
  if is_str r "assistant" then
    c ← get m "content";
    if bool_decide (typeof c = "string") then
      c' ← get m "content";
      s ← to_string c';
      mret (test_ci "blocked by guardrails" s)
    else mret false
  else mret false.

(** [cleaned.length && cleaned[cleaned.length - 1].role === "user"] *)
Definition last_is_user (cleaned : list value) : completion bool :=
  if bool_decide (length cleaned ≠ 0%nat) then
    r ← get (index cleaned (length cleaned - 1)) "role";
    mret (is_str r "user")
  else mret false.

(** One iteration of the loop over [raw]: the new contents of [cleaned]. *)
Definition loop_body (blocked cleaned : list value) (m : value)
  : completion (list value) :=
  r ← get m "role";
  if is_str r "system" then mret cleaned
  else
    b ← is_blocked_user blocked m;
    if (b : bool) then mret cleaned
    else
      n ← looksLikeGuardrailNotice m;
      if (n : bool) then
        u ← last_is_user cleaned;
        if (u : bool) then mret (removelast cleaned) else mret cleaned
      else mret (cleaned ++ [m]).

(** [for (let i = 0; i < raw.length; i++) { ... }], from the messages not
    yet visited. *)
Fixpoint for_each (blocked cleaned raw : list value) : completion (list value) :=
  match raw with
  | [] => mret cleaned
  | m :: rest => c ← loop_body blocked cleaned m; for_each blocked c rest
  end.

(** [cleaned.length > 16 ? cleaned.slice(cleaned.length - 16) : cleaned] *)
Definition windowed (cleaned : list value) : list value :=
  if (16 <? length cleaned)%nat then drop (length cleaned - 16) cleaned
  else cleaned.

Definition buildModelMessages (raw blocked : list value)
  : completion (list value) :=
  cleaned ← for_each blocked [] raw;
  mret ([system_message] ++ windowed cleaned).

(** *** [buildModelMessages] with its arrays in a store

    The same function with [raw], [msgs], [cleaned] and [windowed] as
    references into a store of arrays, so that [push], [pop], [slice] and
    [concat] act as they do in the source: the first two in place, the
    last two on a new array. *)
Module InPlace.

Abbreviation loc := nat (only parsing).
Abbreviation store := (gmap nat (list value)) (only parsing).

Inductive outcome (A : Type) : Type :=
| Done (a : A)
| Raised (e : error)
| OutOfFuel.
Arguments Done {A} a.
Arguments Raised {A} e.
Arguments OutOfFuel {A}.

Definition M (A : Type) : Type := store -> outcome A * store.

#[global] Instance M_ret : MRet M := fun A a h => (Done a, h).
#[global] Instance M_bind : MBind M :=
  fun A B f m h =>
    match m h with
    | (Done a, h') => f a h'
    | (Raised e, h') => (Raised e, h')
    | (OutOfFuel, h') => (OutOfFuel, h')
    end.

Definition lift {A} (c : completion A) : M A :=
  fun h => (match c with Normal a => Done a | Throw e => Raised e end, h).

Definition out_of_fuel {A} : M A := fun h => (OutOfFuel, h).

(** A new array holding [init], at an address the store does not use. *)
Definition new_array (init : list value) : M loc :=
  fun h => let l := fresh (dom h) in (Done l, <[l := init]> h).

(** The contents of the array at [l]; every reference the function holds
    is to an array of the store. *)
Definition read (l : loc) : M (list value) :=
  fun h => (Done (default [] (h !! l)), h).

Definition array_length (l : loc) : M nat :=
  a ← read l; mret (length a).

Definition at_index (l : loc) (i : nat) : M value :=
  a ← read l; mret (index a i).

Definition push (l : loc) (v : value) : M unit :=
  fun h => (Done tt, alter (fun a => a ++ [v]) l h).

Definition pop (l : loc) : M unit :=
  fun h => (Done tt, alter (fun a => removelast a) l h).

Definition slice (l : loc) (start : nat) : M loc :=
  a ← read l; new_array (drop start a).

Definition concat (l1 l2 : loc) : M loc :=
  a ← read l1; b ← read l2; new_array (a ++ b).

Definition loop_body (blocked : list value) (cleaned : loc) (m : value) : M unit :=
  r ← lift (get m "role");
  if is_str r "system" then mret tt
  else
    b ← lift (is_blocked_user blocked m);
    if (b : bool) then mret tt
    else
      n ← lift (looksLikeGuardrailNotice m);
      if (n : bool) then
        len ← array_length cleaned;
        u ← (if bool_decide (len ≠ 0%nat) then
               lst ← at_index cleaned (len - 1);
               r' ← lift (get lst "role");
               mret (is_str r' "user")
             else mret false);
        if (u : bool) then pop cleaned else mret tt
      else push cleaned m.

(** The loop from index [i]; [raw.length] is read again at every test. *)
Fixpoint for_loop (fuel : nat) (blocked : list value) (raw cleaned : loc)
    (i : nat) : M unit :=
  match fuel with
  | O => out_of_fuel
  | S fuel' =>
      len ← array_length raw;
      if (i <? len)%nat then
        m ← at_index raw i;
        loop_body blocked cleaned m;;
        for_loop fuel' blocked raw cleaned (S i)
      else mret tt
  end.

Definition buildModelMessages (fuel : nat) (raw : loc) (blocked : list value)
  : M loc :=
  msgs ← new_array [];
  push msgs system_message;;
  cleaned ← new_array [];
  for_loop fuel blocked raw cleaned 0;;
  len ← array_length cleaned;
  windowed ← (if (16 <? len)%nat then slice cleaned (len - 16)
              else mret cleaned);
  concat msgs windowed.

(** Every array of [h] is found unchanged in [h']. *)
Definition preserved (h h' : store) : Prop :=
  forall (l : loc) (a : list value), h !! l = Some a -> h' !! l = Some a.

End InPlace.

(** *** [parseGatewayError] *)

Record GatewayError : Type := mkGatewayError {
  code : value;
  message : value
}.

(** [{}]: read back, both fields are [undefined]. *)
Definition no_error : GatewayError :=
  {| code := VUndefined; message := VUndefined |}.

Definition elements (v : value) : list value :=
  match v with VArr l => l | _ => [] end.

(** [Array.isArray(b.k) ? b.k : undefined] *)
Definition array_field (b : value) (k : string) : completion value :=
  e ← get b k;
  if isArray e then get b k else mret VUndefined.

(** [if (arr && arr.length && typeof arr[0] === "object")
      return { code: arr[0].code, message: arr[0].message }] *)
Definition first_error (arr : value) : completion (option GatewayError) :=
  if truthy arr && bool_decide (length (elements arr) ≠ 0%nat)
     && bool_decide (typeof (index (elements arr) 0) = "object")
  then
    c ← get (index (elements arr) 0) "code";
    m ← get (index (elements arr) 0) "message";
    mret (Some {| code := c; message := m |})
  else mret None.

(** [if (typeof b.k === "string") return { message: b.k }] *)
Definition string_field (b : value) (k : string)
  : completion (option GatewayError) :=
  e ← get b k;
  if bool_decide (typeof e = "string") then
    e' ← get b k;
    mret (Some {| code := VUndefined; message := e' |})
  else mret None.

(** The [try] block: [None] when control falls out of it. *)
Definition try_block (body : value) : completion (option GatewayError) :=
  if truthy body && bool_decide (typeof body = "object") then
    arr1 ← array_field body "error";
    r1 ← first_error arr1;
    match r1 with
    | Some r => mret (Some r)
    | None =>
        arr2 ← array_field body "errors";
        r2 ← first_error arr2;
        match r2 with
        | Some r => mret (Some r)
        | None =>
            r3 ← string_field body "error";
            match r3 with
            | Some r => mret (Some r)
            | None =>
                r4 ← string_field body "message";
                match r4 with
                | Some r => mret (Some r)
                | None => string_field body "detail"
                end
            end
        end
    end
  else mret None.

Definition parseGatewayError (body : value) : completion GatewayError :=
  r ← try_catch (try_block body) (fun _ => mret None);
  match r with
  | Some e => mret e
  | None => mret no_error
  end.

(** *** [handleChatRequest] *)

(** What the handler uses of the raw response of [env.AI.run]: [ok],
    [status], the outcome of [json()] and the chunks of bytes
    [body.getReader()] delivers ([None] when there is no body). *)
Record AiResponse : Type := mkAiResponse {
  ok : bool;
  status : Z;
  json : completion value;
  chunks : option (list string)
}.

Inductive Body : Type :=
| JsonBody (v : value)
| EventStream (frames : list string).

(** A response: its status, its headers and its body, [JSON.stringify]
    of a body being left to the value it serialises.  The record is also
    what [new Response(body, { status, headers })] is asked to build;
    whether it builds it is [new_Response]. *)
Record Response : Type := mkResponse {
  resp_status : Z;
  resp_headers : list (string * string);
  resp_body : Body
}.

Definition GENERIC_ERROR : string :=
  "An error occurred while processing your request.".
Definition PROMPT_BLOCKED : string := "Prompt was blocked by guardrails.".
Definition RESPONSE_BLOCKED : string := "Response was blocked by guardrails.".

(** [typeof message === "string" && message.length] *)
Definition nonempty_string (v : value) : bool :=
  match v with VStr s => negb (bool_decide (s = "")) | _ => false end.

(** The inner [try] of the [!aiResponse.ok] branch: the value assigned to
    [userMessage], which stays at the generic text when nothing is. *)
Definition user_message (ai : AiResponse) : string :=
  let attempt : completion string :=
    body ← json ai;
    e ← parseGatewayError body;
    if is_num (code e) 2016 then mret PROMPT_BLOCKED
    else if is_num (code e) 2017 then mret RESPONSE_BLOCKED
    else if nonempty_string (message e) then
      mret (match message e with VStr s => s | _ => GENERIC_ERROR end)
    else mret GENERIC_ERROR in
  match attempt with
  | Normal s => s
  | Throw _ => GENERIC_ERROR
  end.

(** [new Response(body, init)]: a status outside 200..599 is refused
    with a [RangeError], and a body, which every reply of the handler
    has, is refused with a [TypeError] for a status that allows none. *)
Definition null_body_status (s : Z) : bool :=
  (s =? 101) || (s =? 103) || (s =? 204) || (s =? 205) || (s =? 304).

Definition new_Response (init : Response) : completion Response :=
  if negb ((200 <=? resp_status init) && (resp_status init <=? 599))
  then Throw RangeError
  else if null_body_status (resp_status init) then Throw TypeError
  else Normal init.

(** What the [!aiResponse.ok] branch asks [new Response] for. *)
Definition failure_response (ai : AiResponse) : Response :=
  {| resp_status := status ai;
     resp_headers := [("Content-Type", "application/json")];
     resp_body := JsonBody (VObj [("error", VStr (user_message ai))]) |}.

(** [`data: ${textChunk}\n\n`] *)
Definition sse_frame (chunk : string) : string :=
  ("data: " ++ chunk ++ newline ++ newline)%string.

(** What the streaming branch asks [new Response] for: the frames
    written for the chunks read, each chunk decoded on its own. *)
Definition stream_response (ai : AiResponse) : Response :=
  {| resp_status := 200;
     resp_headers := [("Content-Type", "text/event-stream");
                      ("Cache-Control", "no-cache");
                      ("Connection", "keep-alive")];
     resp_body :=
       EventStream
         (List.map (fun chunk => sse_frame (TextDecoder_decode chunk))
            (default [] (chunks ai))) |}.

Definition internal_error : Response :=
  {| resp_status := 500;
     resp_headers := [("content-type", "application/json")];
     resp_body := JsonBody (VObj [("error", VStr "Failed to process request")]) |}.

(** [Array.isArray(raw?.k) ? raw!.k! : []] *)
Definition array_or_empty (raw : value) (k : string) : list value :=
  if isArray (get_opt raw k) then elements (get_opt raw k) else [].

Section Handler.

(** [env.AI.run(MODEL_ID, { messages, ... }, { ... })] as a function of the
    messages it is given; it may reject. *)
Variable AI_run : list value -> completion AiResponse.

(** The statements of the outer [try] up to the call of the model: the
    messages handed to it. *)
Definition model_messages (request_json : completion value)
  : completion (list value) :=
  raw ← request_json;
  let messages := array_or_empty raw "messages" in
  let blocked := array_or_empty raw "blockedUserContents" in
  buildModelMessages messages blocked.

(** The rest of the outer [try]. *)
Definition respond (modelMessages : list value) : completion Response :=
  aiResponse ← AI_run modelMessages;
  if negb (ok aiResponse) then new_Response (failure_response aiResponse)
  else new_Response (stream_response aiResponse).

(** [request_json] is the outcome of [await request.json()]. *)
Definition handleChatRequest (request_json : completion value) : Response :=
  match model_messages request_json ≫= respond with
  | Normal r => r
  | Throw _ => internal_error
  end.

End Handler.

End Server.

(** ** The browser client *)

Module Client.

(** The client only stores messages it built itself, with a literal role
    and a string content. *)
Record Message : Type := mkMessage {
  role : string;
  content : string
}.

Definition GREETING : string :=
  "Hello! I'm an LLM chat app powered by Cloudflare Workers AI. How can I help you today?".

(** The module-level variables of [chat.js]. *)
Record State : Type := mkState {
  chatHistory : list Message;
  blockedUserContents : list string;
  isProcessing : bool;
  lastSentUserText : string
}.

Definition initial : State :=
  {| chatHistory := [{| role := "assistant"; content := GREETING |}];
     blockedUserContents := [];
     isProcessing := false;
     lastSentUserText := "" |}.

(** [list.includes(text)] *)
Definition includes (l : list string) (text : string) : bool :=
  bool_decide (text ∈ l).

(** [for (let i = chatHistory.length - 1; i >= 0; i--)], entered with
    [n = i + 1]: the first user entry met is spliced out and the loop
    left. *)
Fixpoint popLastUserTurn_from (n : nat) (history : list Message) : list Message :=
  match n with
  | O => history
  | S i =>
      match history !! i with
      | Some m =>
          if bool_decide (role m = "user") then delete i history
          else popLastUserTurn_from i history
      | None => popLastUserTurn_from i history
      end
  end.

Definition popLastUserTurn (history : list Message) : list Message :=
  popLastUserTurn_from (length history) history.

Definition BLOCKLIST_LIMIT : nat := 20.

(** [push] then, past the limit, [shift]. *)
Definition rememberBlockedUser (text : string) (blocked : list string)
  : list string :=
  if bool_decide (text = "") then blocked
  else if negb (includes blocked text) then
    let pushed := blocked ++ [text] in
    if (BLOCKLIST_LIMIT <? length pushed)%nat then tail pushed else pushed
  else blocked.

Record ErrorInfo : Type := mkErrorInfo {
  text : value;
  wasPromptBlocked : bool;
  wasResponseBlocked : bool
}.

Definition FALLBACK : string :=
  "Sorry, there was an error processing your request.".

(** [(data && (data.error || data.message || data.msg)) || ""] *)
Definition error_text (data : value) : completion value :=
  inner ← (if truthy data then
             e ← get data "error";
             if truthy e then mret e
             else
               m ← get data "message";
               if truthy m then mret m else get data "msg"
           else mret data);
  mret (or_else inner (VStr "")).

(** [data] is the outcome of [await res.json()]. *)
Definition mapError (data : completion value) : ErrorInfo :=
  let attempt : completion ErrorInfo :=
    d ← data;
    msg ← error_text d;
    shown ← to_string msg;
    shown' ← to_string msg;
    if test_ci "Prompt was blocked by guardrails" shown then
      mret {| text := VStr "⚠️ Prompt was blocked by guardrails due to security policy.";
              wasPromptBlocked := true;
              wasResponseBlocked := false |}
    else if test_ci "Response was blocked by guardrails" shown' then
      mret {| text := VStr "⚠️ Response was blocked by guardrails.";
              wasPromptBlocked := false;
              wasResponseBlocked := true |}
    else
      mret {| text := or_else msg (VStr FALLBACK);
              wasPromptBlocked := false;
              wasResponseBlocked := false |} in
  match attempt with
  | Normal info => info
  | Throw _ =>
      {| text := VStr FALLBACK;
         wasPromptBlocked := false;
         wasResponseBlocked := false |}
  end.

(** The body of the request: [{ messages: sanitizedMessages,
    blockedUserContents }] as serialised at the call of [fetch]. *)
Record Request : Type := mkRequest {
  req_messages : list Message;
  req_blockedUserContents : list string
}.

(** [chatHistory.filter((m) => !(m.role === "user" &&
    blockedUserContents.includes(m.content)))] *)
Definition sanitizedMessages (history : list Message) (blocked : list string)
  : list Message :=
  List.filter
    (fun m => negb (bool_decide (role m = "user") && includes blocked (content m)))
    history.

(** How the exchange after [fetch] went. *)
Inductive Outcome : Type :=
| NotOk (data : completion value)
    (** [!res.ok]; [data] is the outcome of [res.json()] *)
| Streamed (acc : string)
    (** the stream was read to its end and [acc] accumulated *)
| Failed.
    (** [fetch] or a read rejected: the [catch] block *)

(** One call of [sendMessage], from the click to the [finally] block;
    [message] is [userInput.value.trim()].  Calls made while one is in
    flight return at the first line, so the awaits of a call are not
    interleaved with another call's effects. *)
Definition sendMessage (message : string) (o : Outcome) (st : State)
  : State * option Request :=
  if bool_decide (message = "") || isProcessing st then (st, None)
  else
    let pushed := chatHistory st ++ [{| role := "user"; content := message |}] in
    let blocked := blockedUserContents st in
    let request :=
      {| req_messages := sanitizedMessages pushed blocked;
         req_blockedUserContents := blocked |} in
    let '(history, blocked') :=
      match o with
      | NotOk data =>
          if wasPromptBlocked (mapError data) then
            (popLastUserTurn pushed, rememberBlockedUser message blocked)
          else (pushed, blocked)
      | Streamed acc =>
          (pushed ++ [{| role := "assistant";
                         content := if bool_decide (acc = "") then "…" else acc |}],
           blocked)
      | Failed => (pushed, blocked)
      end in
    ({| chatHistory := history;
        blockedUserContents := blocked';
        isProcessing := false;
        lastSentUserText := message |},
     Some request).

(** A session: the sends made one after the other, with the requests they
    issued. *)
Fixpoint session (turns : list (string * Outcome)) (st : State)
  : State * list Request :=
  match turns with
  | [] => (st, [])
  | (message, o) :: rest =>
      let '(st', r) := sendMessage message o st in
      let '(st'', rs) := session rest st' in
      (st'', option_list r ++ rs)
  end.

(** Inserting the texts of a list into the block list, first to last. *)
Definition remember_all (texts blocked : list string) : list string :=
  fold_left (fun l t => rememberBlockedUser t l) texts blocked.

(** The sends of a session that were answered as a blocked prompt. *)
Definition prompt_blocked (turn : string * Outcome) : bool :=
  match turn with
  | (_, NotOk data) => wasPromptBlocked (mapError data)
  | _ => false
  end.

(** The texts a session inserts into the block list, in order: those of
    its sends that were answered as a blocked prompt.  A call with the
    empty text returns before anything is sent. *)
Definition inserted (turns : list (string * Outcome)) : list string :=
  List.map fst
    (List.filter
       (fun turn => negb (bool_decide (fst turn = "")) && prompt_blocked turn)
       turns).

(** A request that names [t] as blocked and carries no user message with
    that content. *)
Definition withholds (t : string) (r : Request) : Prop :=
  t ∈ req_blockedUserContents r
  ∧ Forall (fun m => ¬ (role m = "user" ∧ content m = t)) (req_messages r).

(** The failure body the worker sends for a blocked prompt. *)
Definition prompt_blocked_body : completion value :=
  Normal (VObj [("error", VStr "Prompt was blocked by guardrails.")]).

End Client.

(** ** Typed histories

    [buildModelMessages] is declared over [ChatMessage[]] and
    [Set<string>]; the properties of the sanitiser are stated for the
    values of those types. *)

Module Chat.

(** Modelled from the spec: [ChatMessage] is declared in [./types], which
    is not among the sources; a message has a role and a text content.  The
    role is left an arbitrary string, of which [system], [user] and
    [assistant] are three. *)
Record ChatMessage : Type := mkChatMessage {
  role : string;
  content : string
}.

Definition to_value (m : ChatMessage) : value :=
  VObj [("role", VStr (role m)); ("content", VStr (content m))].

Definition to_values (H : list ChatMessage) : list value :=
  List.map to_value H.

(** A [Set<string>] built from the strings of [B]. *)
Definition to_set (B : list string) : list value := List.map VStr B.

Definition system (content : string) : ChatMessage :=
  {| role := "system"; content := content |}.
Definition user (content : string) : ChatMessage :=
  {| role := "user"; content := content |}.
Definition assistant (content : string) : ChatMessage :=
  {| role := "assistant"; content := content |}.

(** An assistant message whose content contains the phrase, in any case. *)
Definition guardrail_notice (m : ChatMessage) : bool :=
  bool_decide (role m = "assistant")
  && test_ci "blocked by guardrails" (content m).

(** A user message whose content is a member of [B]. *)
Definition blocked_user (B : list string) (m : ChatMessage) : bool :=
  bool_decide (role m = "user") && bool_decide (content m ∈ B).

(** What one iteration of the loop does to [cleaned], read on typed
    messages; [Server.loop_body] is shown to compute it. *)
Definition step (B : list string) (cleaned : list ChatMessage) (m : ChatMessage)
  : list ChatMessage :=
  if bool_decide (role m = "system") then cleaned
  else if blocked_user B m then cleaned
  else if guardrail_notice m then
    match last cleaned with
    | Some u => if bool_decide (role u = "user") then removelast cleaned else cleaned
    | None => cleaned
    end
  else cleaned ++ [m].

Definition run (B : list string) (cleaned H : list ChatMessage)
  : list ChatMessage :=
  fold_left (step B) H cleaned.

(** The messages an iteration pushes onto [cleaned]. *)
Definition pushed (B : list string) (m : ChatMessage) : bool :=
  negb (bool_decide (role m = "system"))
  && negb (blocked_user B m)
  && negb (guardrail_notice m).

End Chat.

(** ** The classifier as the specification words it

    The five shapes of a failure body, tried in order, the first match
    giving the result; [Server.parseGatewayError] is compared with it. *)

Module Spec.

Import Server.

(** A non-empty sequence whose element 0 is an object ([typeof] says
    [object], which it also says of [null]): that element. *)
Definition object_array_head (v : value) : option value :=
  match v with
  | VArr (e :: _) => if bool_decide (typeof e = "object") then Some e else None
  | _ => None
  end.

Definition string_valued (v : value) : option string :=
  match v with VStr s => Some s | _ => None end.

(** [code] and [message] of element 0; reading them off [null] is the
    evaluation that throws, and the result is then empty. *)
Definition from_element (e : value) : GatewayError :=
  if nullish e then no_error
  else {| code := prop e "code"; message := prop e "message" |}.

Definition message_only (s : string) : GatewayError :=
  {| code := VUndefined; message := VStr s |}.

Definition classify (body : value) : GatewayError :=
  match body with
  | VArr _ | VObj _ =>
      match object_array_head (prop body "error") with
      | Some e => from_element e
      | None =>
      match object_array_head (prop body "errors") with
      | Some e => from_element e
      | None =>
      match string_valued (prop body "error") with
      | Some s => message_only s
      | None =>
      match string_valued (prop body "message") with
      | Some s => message_only s
      | None =>
      match string_valued (prop body "detail") with
      | Some s => message_only s
      | None => no_error
      end end end end end
  | _ => no_error
  end.

End Spec.

(** ** Sample inputs *)

Module Samples.

Import Server.

(** A guardrail rejection as the gateway reports it, with HTTP 424. *)
Definition prompt_rejection : AiResponse :=
  {| ok := false;
     status := 424;
     json := Normal (VObj [("error",
               VArr [VObj [("code", VNum 2016); ("message", VStr "blocked")]])]);
     chunks := None |}.

(** A failure the gateway reports with a status that allows no body. *)
Definition rejection_304 : AiResponse :=
  {| ok := false;
     status := 304;
     json := Normal (VObj [("error",
               VArr [VObj [("code", VNum 2016); ("message", VStr "blocked")]])]);
     chunks := None |}.

(** A model that streams two chunks. *)
Definition streaming_model (_ : list value) : completion AiResponse :=
  Normal {| ok := true; status := 200; json := Throw SyntaxError;
            chunks := Some ["ab"; "cd"] |}.

(** A body whose [messages] is a string and which has no
    [blockedUserContents]. *)
Definition body_without_arrays : value :=
  VObj [("messages", VStr "hello")].


(** A history and a store holding it at address 7. *)
Definition history : list value :=
  Chat.to_values [Chat.user "X"; Chat.assistant "Prompt was blocked by guardrails."].

Definition store : gmap nat (list value) := {[ 7%nat := history ]}.

(** Twenty-four distinct prompts. *)
Definition prompts24 : list string :=
  ["p01"; "p02"; "p03"; "p04"; "p05"; "p06"; "p07"; "p08"; "p09"; "p10";
   "p11"; "p12"; "p13"; "p14"; "p15"; "p16"; "p17"; "p18"; "p19"; "p20";
   "p21"; "p22"; "p23"; "p24"].

(** A session in which [bad] is blocked, twenty other prompts are blocked
    after it, and [bad] is then sent again. *)
Definition long_session : list (string * Client.Outcome) :=
  [("bad", Client.NotOk Client.prompt_blocked_body)]
  ++ List.map (fun p => (p, Client.NotOk Client.prompt_blocked_body))
       (take 20 prompts24)
  ++ [("bad", Client.Streamed "ok")].

(** A response of the model in two chunks. *)
Definition two_chunks : Server.AiResponse :=
  {| Server.ok := true; Server.status := 200;
     Server.json := Throw SyntaxError;
     Server.chunks := Some ["first"; "second"] |}.

(** A parser that knows two payloads, for running the reader. *)
Definition two_payloads (payload : string) : completion value :=
  if bool_decide (payload = " first") then
    Normal (VObj [("response", VStr "Hel")])
  else if bool_decide (payload = " second") then
    Normal (VObj [("response", VStr "lo")])
  else Throw SyntaxError.

End Samples.

(** ** The routes of the worker *)

Module Router.

Import Server.

(** What [fetch] reads of a request: the path of its URL, its method and,
    when the chat handler asks for it, the outcome of [request.json()]. *)
Record Request : Type := mkRequest {
  pathname : string;
  method : string;
  json_body : completion value
}.

Section Fetch.

(** The reply of [env.ASSETS.fetch(request)], which the worker passes on
    as it is. *)
Variable Asset : Type.
Variable ASSETS_fetch : Request -> Asset.
Variable AI_run : list value -> completion AiResponse.

Inductive Reply : Type :=
| FromAssets (a : Asset)
| Plain (status : Z) (text : string)
    (** [new Response(text, { status })] *)
| FromChat (r : Response).

Definition fetch (request : Request) : Reply :=
  if bool_decide (pathname request = "/")
     || negb (String.prefix "/api/" (pathname request))
  then FromAssets (ASSETS_fetch request)
  else if bool_decide (pathname request = "/api/chat") then
    if negb (bool_decide (method request = "POST"))
    then Plain 405 "Method not allowed"
    else FromChat (handleChatRequest AI_run (json_body request))
  else Plain 404 "Not found".

End Fetch.

Arguments FromAssets {Asset} a.
Arguments Plain {Asset} status text.
Arguments FromChat {Asset} r.

End Router.

(** ** Reading the event stream in the client *)

Module Reader.

(** [s.split("\n")] *)
Fixpoint split_lines (s : string) : list string :=
  match s with
  | EmptyString => [""]
  | String c rest =>
      if bool_decide (c = ascii_of_nat 10) then "" :: split_lines rest
      else match split_lines rest with
           | line :: lines => String c line :: lines
           | [] => [String c ""]
           end
  end.

(** [s.slice(n)] *)
Fixpoint slice (n : nat) (s : string) : string :=
  match n, s with
  | O, _ => s
  | S n', String _ rest => slice n' rest
  | S _, EmptyString => ""
  end.

Section Reading.

(** [JSON.parse], which throws on a text that is not JSON. *)
Variable JSON_parse : string -> completion value.

(** The body of the loop over the lines of a chunk: lines without the
    [data:] prefix are skipped, and a line whose payload does not parse,
    or parses to [null], is skipped by the [catch]. *)
Definition read_line (acc line : string) : string :=
  if negb (String.prefix "data:" line) then acc
  else
    let attempt : completion string :=
      json ← JSON_parse (slice 5 line);
      r ← get json "response";
      if bool_decide (typeof r = "string") then
        r' ← get json "response";
        mret (match r' with VStr s => (acc ++ s)%string | _ => acc end)
      else mret acc in
    match attempt with
    | Normal acc' => acc'
    | Throw _ => acc
    end.

Definition read_chunk (acc chunk : string) : string :=
  fold_left read_line (split_lines chunk) acc.

(** [acc] when the reader reports [done], from the decoded chunks. *)
Definition read_stream (chunks : list string) : string :=
  fold_left read_chunk chunks "".

(** What a payload adds to [acc]. *)
Definition response_text (payload : string) : string :=
  match JSON_parse payload with
  | Normal json =>
      match get_opt json "response" with
      | VStr s => s
      | _ => ""
      end
  | Throw _ => ""
  end.

End Reading.

End Reader.

(** ** The client's request as the worker receives it *)

Module Wire.

Definition of_client (m : Client.Message) : Chat.ChatMessage :=
  {| Chat.role := Client.role m; Chat.content := Client.content m |}.

(** [JSON.stringify({ messages, blockedUserContents })] read back by
    [request.json()]. *)
Definition request_body (r : Client.Request) : value :=
  VObj [("messages",
         VArr (Chat.to_values (List.map of_client (Client.req_messages r))));
        ("blockedUserContents",
         VArr (Chat.to_set (Client.req_blockedUserContents r)))].

End Wire.

(** ** Vocabulary of the further properties *)

Module Text.

Fixpoint lower_string (s : string) : string :=
  match s with
  | EmptyString => EmptyString
  | String c rest => String (lower c) (lower_string rest)
  end.

(** [s] holds [p] as a substring, letter case apart. *)
Definition contains_ci (p s : string) : Prop :=
  ∃ a m b : string,
    s = (a ++ m ++ b)%string ∧ lower_string m = lower_string p.

(** A message [buildModelMessages] has nothing against: not a system
    message, not a user message with a blocked content, not a guardrail
    notice. *)
Definition benign (B : list string) (m : Chat.ChatMessage) : Prop :=
  Chat.role m ≠ "system"
  ∧ ¬ (Chat.role m = "user" ∧ Chat.content m ∈ B)
  ∧ ¬ (Chat.role m = "assistant"
       ∧ contains_ci "blocked by guardrails" (Chat.content m)).

(** The texts of a list, one after the other. *)
Definition concat_all (l : list string) : string :=
  fold_right String.append "" l.

(** What a line of the stream adds to the text the client accumulates. *)
Definition line_text (JSON_parse : string -> completion value)
    (line : string) : string :=
  if String.prefix "data:" line
  then Reader.response_text JSON_parse (Reader.slice 5 line)
  else "".

Fixpoint has_newline (s : string) : bool :=
  match s with
  | EmptyString => false
  | String c rest => bool_decide (c = ascii_of_nat 10) || has_newline rest
  end.

End Text.

(** ** States of a conversation *)

Module Conversation.

Import Client.

(** A message the client itself wrote: a user or an assistant message
    with some content. *)
Definition own_message (m : Message) : Prop :=
  (role m = "user" ∨ role m = "assistant") ∧ content m ≠ "".

(** What holds of the state between two sends. *)
Definition well_formed (st : State) : Prop :=
  isProcessing st = false
  ∧ head (chatHistory st) = Some {| role := "assistant"; content := GREETING |}
  ∧ Forall own_message (chatHistory st)
  ∧ NoDup (blockedUserContents st)
  ∧ (length (blockedUserContents st) ≤ 20)%nat
  ∧ "" ∉ blockedUserContents st.

(** The messages a send leaves in the conversation. *)
Definition appended (message : string) (o : Outcome) : list Message :=
  match o with
  | NotOk data =>
      if wasPromptBlocked (mapError data) then []
      else [{| role := "user"; content := message |}]
  | Streamed acc =>
      [{| role := "user"; content := message |};
       {| role := "assistant";
          content := if bool_decide (acc = "") then "…" else acc |}]
  | Failed => [{| role := "user"; content := message |}]
  end.

(** What holds of a request. *)
Definition well_formed_request (r : Request) : Prop :=
  Forall own_message (req_messages r)
  ∧ NoDup (req_blockedUserContents r)
  ∧ (length (req_blockedUserContents r) ≤ 20)%nat
  ∧ "" ∉ req_blockedUserContents r.

End Conversation.

(** * Properties of the worker *)

Module ServerFacts.

Import Server Chat.

Lemma get_not_nullish v k : nullish v = false -> get v k = Normal (prop v k).
Proof. unfold get. by intros ->. Qed.

Lemma get_to_value_role m : get (to_value m) "role" = Normal (VStr (role m)).
Proof. reflexivity. Qed.

Lemma get_to_value_content m :
  get (to_value m) "content" = Normal (VStr (content m)).
Proof. reflexivity. Qed.

Lemma Set_has_to_set B s : Set_has (to_set B) (VStr s) = bool_decide (s ∈ B).
Proof.
  unfold Set_has, to_set. induction B as [|b B IH]; simpl.
  - done.
  - by rewrite IH, (bool_decide_ext _ _ (elem_of_cons B s b)), bool_decide_or.
Qed.

Lemma is_blocked_user_to_value B m :
  is_blocked_user (to_set B) (to_value m) = Normal (blocked_user B m).
Proof.
  unfold is_blocked_user, blocked_user.
  rewrite get_to_value_role. simpl.
  case_bool_decide; simpl; [|done].
  by rewrite Set_has_to_set.
Qed.

Lemma looksLikeGuardrailNotice_to_value m :
  looksLikeGuardrailNotice (to_value m) = Normal (guardrail_notice m).
Proof.
  unfold looksLikeGuardrailNotice, guardrail_notice.
  rewrite get_to_value_role. simpl.
  by case_bool_decide.
Qed.

Lemma index_last (l : list value) x :
  index (l ++ [x]) (length (l ++ [x]) - 1) = x.
Proof.
  unfold index. rewrite length_app. simpl.
  replace (length l + 1 - 1)%nat with (length l) by lia.
  by rewrite list_lookup_middle.
Qed.

Lemma last_is_user_to_values cs :
  last_is_user (to_values cs) =
  Normal (match last cs with
          | Some u => bool_decide (role u = "user")
          | None => false
          end).
Proof.
  unfold last_is_user, to_values.
  destruct cs as [|c cs _] using rev_ind; [done|].
  rewrite last_snoc, map_app. simpl.
  rewrite index_last. rewrite bool_decide_eq_true_2.
  - reflexivity.
  - rewrite length_app. simpl. lia.
Qed.

Lemma to_values_removelast cs :
  removelast (to_values cs) = to_values (removelast cs).
Proof.
  unfold to_values.
  destruct cs as [|c cs _] using rev_ind; [done|].
  rewrite map_app. simpl. by rewrite !removelast_last.
Qed.

(** [Server.loop_body] on typed messages never throws and computes
    [Chat.step]. *)
Lemma loop_body_to_value B cs m :
  loop_body (to_set B) (to_values cs) (to_value m)
  = Normal (to_values (step B cs m)).
Proof.
  unfold loop_body, step.
  rewrite get_to_value_role. simpl.
  case_bool_decide; [done|].
  rewrite is_blocked_user_to_value. simpl.
  destruct (blocked_user B m); [done|].
  rewrite looksLikeGuardrailNotice_to_value. simpl.
  destruct (guardrail_notice m).
  - rewrite last_is_user_to_values. simpl.
    destruct (last cs) as [u|]; [|done].
    case_bool_decide; [|done].
    by rewrite to_values_removelast.
  - unfold to_values. by rewrite map_app.
Qed.

Lemma for_each_to_values B H : forall cs,
  for_each (to_set B) (to_values cs) (to_values H)
  = Normal (to_values (run B cs H)).
Proof.
  induction H as [|m H IH]; intros cs; [done|].
  simpl. rewrite loop_body_to_value. simpl. apply IH.
Qed.

Lemma windowed_to_values cs :
  windowed (to_values cs)
  = to_values (drop (length cs - 16) cs).
Proof.
  unfold windowed, to_values. rewrite length_map.
  destruct (16 <? length cs)%nat eqn:E.
  - symmetry. apply (fmap_drop to_value).
  - apply Nat.ltb_ge in E.
    replace (length cs - 16)%nat with 0%nat by lia. done.
Qed.

(** [Server.buildModelMessages] on a typed history: the system message,
    then the trailing window of the cleaned list. *)
Lemma buildModelMessages_to_values H B :
  buildModelMessages (to_values H) (to_set B)
  = Normal (system_message
            :: to_values (drop (length (run B [] H) - 16) (run B [] H))).
Proof.
  unfold buildModelMessages.
  change (@nil value) with (to_values []).
  rewrite for_each_to_values. simpl.
  by rewrite windowed_to_values.
Qed.

(** *** What the cleaned list holds *)

Lemma Forall_removelast {A} (P : A -> Prop) (l : list A) :
  Forall P l -> Forall P (removelast l).
Proof.
  destruct l as [|x l _] using rev_ind; [done|].
  rewrite removelast_last. by intros [? _]%Forall_app.
Qed.

Lemma step_pushed B cs m :
  Forall (fun x => pushed B x = true) cs ->
  Forall (fun x => pushed B x = true) (step B cs m).
Proof.
  intros Hcs. unfold step.
  destruct (bool_decide (role m = "system")) eqn:Es; [done|].
  destruct (blocked_user B m) eqn:Eb; [done|].
  destruct (guardrail_notice m) eqn:En.
  - destruct (last cs) as [u|]; [|done].
    destruct (bool_decide (role u = "user")); [|done].
    by apply Forall_removelast.
  - apply Forall_app. split; [done|].
    apply Forall_singleton. unfold pushed. by rewrite Es, Eb, En.
Qed.

Lemma run_pushed B H : forall cs,
  Forall (fun x => pushed B x = true) cs ->
  Forall (fun x => pushed B x = true) (run B cs H).
Proof.
  induction H as [|m H IH]; intros cs Hcs; [done|].
  simpl. apply IH. by apply step_pushed.
Qed.

(** On messages that would all be pushed, the loop only appends. *)
Lemma run_only_pushed B H : forall cs,
  Forall (fun x => pushed B x = true) H -> run B cs H = cs ++ H.
Proof.
  induction H as [|m H IH]; intros cs HH.
  - by rewrite app_nil_r.
  - apply Forall_cons in HH as [Hm HH]. simpl.
    rewrite IH by done. unfold step, pushed in *.
    destruct (bool_decide (role m = "system")); [done|].
    destruct (blocked_user B m); [done|].
    destruct (guardrail_notice m); [done|].
    by rewrite <- app_assoc.
Qed.

Lemma pushed_spec B m :
  pushed B m = true ->
  role m ≠ "system" ∧ ¬ (role m = "user" ∧ content m ∈ B).
Proof.
  unfold pushed, blocked_user. intros Hp.
  repeat (apply andb_prop in Hp as [Hp ?]).
  apply negb_true_iff in Hp.
  apply bool_decide_eq_false in Hp. split; [done|].
  intros [Hu Hc].
  match goal with Hb : negb (_ && _) = true |- _ =>
    apply negb_true_iff, andb_false_iff in Hb as [Hb|Hb];
    apply bool_decide_eq_false in Hb; done
  end.
Qed.

(** C1: for every history [H] and block set [B], [buildModelMessages]
    returns the synthesized system message followed by messages none of
    which has role [system] and none of which is a user message whose
    content is a member of [B]. *)
Theorem sanitized_excludes_system_and_blocked
    (H : list ChatMessage) (B : list string) :
  ∃ rest : list ChatMessage,
    buildModelMessages (to_values H) (to_set B)
    = Normal (system_message :: to_values rest)
    ∧ Forall (fun m => role m ≠ "system"
                       ∧ ¬ (role m = "user" ∧ content m ∈ B)) rest.
Proof.
  exists (drop (length (run B [] H) - 16) (run B [] H)). split.
  - apply buildModelMessages_to_values.
  - apply Forall_drop.
    eapply Forall_impl; [by apply run_pushed|].
    intros m. apply pushed_spec.
Qed.

(** C6: [buildModelMessages] returns at most 17 messages: the system
    message, then the cleaned list when it has at most 16 entries and
    otherwise its last 16, the entries dropped being its oldest ones. *)
Theorem sanitized_window_bound (H : list ChatMessage) (B : list string) :
  ∃ out cleaned dropped kept : list value,
    for_each (to_set B) [] (to_values H) = Normal cleaned
    ∧ buildModelMessages (to_values H) (to_set B) = Normal out
    ∧ out = system_message :: kept
    ∧ cleaned = dropped ++ kept
    ∧ (length kept ≤ 16)%nat
    ∧ (dropped ≠ [] -> length kept = 16%nat)
    ∧ (length out ≤ 17)%nat.
Proof.
  set (cs := run B [] H).
  exists (system_message :: to_values (drop (length cs - 16) cs)),
         (to_values cs),
         (to_values (take (length cs - 16) cs)),
         (to_values (drop (length cs - 16) cs)).
  assert (Hlen : (length (drop (length cs - 16) cs) ≤ 16)%nat)
    by (rewrite length_drop; lia).
  repeat split.
  - change (@nil value) with (to_values []). apply for_each_to_values.
  - apply buildModelMessages_to_values.
  - unfold to_values. by rewrite <- map_app, take_drop.
  - unfold to_values. by rewrite length_map.
  - unfold to_values. rewrite !length_map, length_drop.
    intros Hne. destruct (decide (length cs ≤ 16)%nat) as [Hle|Hgt]; [|lia].
    exfalso. apply Hne.
    replace (length cs - 16)%nat with 0%nat by lia. done.
  - simpl. unfold to_values. rewrite length_map. lia.
Qed.

(** C8: sanitising the output of [buildModelMessages] again, with its
    system message stripped and the same block set, returns that same
    output. *)
Theorem sanitize_idempotent (H : list ChatMessage) (B : list string) :
  ∃ out : list value,
    buildModelMessages (to_values H) (to_set B) = Normal out
    ∧ buildModelMessages (List.tail out) (to_set B) = Normal out.
Proof.
  set (cs := run B [] H).
  set (w := drop (length cs - 16) cs).
  exists (system_message :: to_values w). split.
  - apply buildModelMessages_to_values.
  - simpl. rewrite buildModelMessages_to_values.
    assert (Hw : Forall (fun x => pushed B x = true) w)
      by (apply Forall_drop; by apply run_pushed).
    rewrite (run_only_pushed B w []) by done. simpl.
    assert (length w ≤ 16)%nat by (unfold w; rewrite length_drop; lia).
    replace (length w - 16)%nat with 0%nat by lia. done.
Qed.

(** *** Guardrail notices *)

Lemma run_app B H1 H2 cs : run B cs (H1 ++ H2) = run B (run B cs H1) H2.
Proof. apply fold_left_app. Qed.

Lemma step_notice B cs n :
  role n = "assistant" ->
  test_ci "blocked by guardrails" (content n) = true ->
  (∃ u, role u = "user" ∧ cs = step B cs n ++ [u])
  ∨ (step B cs n = cs ∧ ∀ cs0 u, cs = cs0 ++ [u] -> role u ≠ "user").
Proof.
  intros Hr Ht. unfold step, blocked_user, guardrail_notice.
  rewrite Hr, Ht. simpl.
  destruct cs as [|u cs _] using rev_ind.
  - right. split; [done|]. intros cs0 u E. by destruct cs0.
  - rewrite last_snoc. case_bool_decide as Hu.
    + left. exists u. by rewrite removelast_last.
    + right. split; [done|].
      intros cs0 u' [_ ->]%app_inj_tail. done.
Qed.

(** C3: an assistant message whose content contains [blocked by
    guardrails], in any case, is not pushed; when the cleaned list ends
    with a user message at that point that one message is popped, and
    otherwise the cleaned list is left as it is.  The loop then goes on
    from there over the rest of the history. *)
Theorem notice_drops_itself_and_one_user
    (B : list string) (H T : list ChatMessage) (n : ChatMessage) :
  role n = "assistant" ->
  test_ci "blocked by guardrails" (content n) = true ->
  ∃ before after : list ChatMessage,
    for_each (to_set B) [] (to_values H) = Normal (to_values before)
    ∧ for_each (to_set B) [] (to_values (H ++ [n])) = Normal (to_values after)
    ∧ for_each (to_set B) [] (to_values (H ++ n :: T))
      = for_each (to_set B) (to_values after) (to_values T)
    ∧ ((∃ u, role u = "user" ∧ before = after ++ [u])
       ∨ (after = before ∧ ∀ cs u, before = cs ++ [u] -> role u ≠ "user")).
Proof.
  intros Hr Ht.
  exists (run B [] H), (step B (run B [] H) n).
  change (@nil value) with (to_values []).
  rewrite !for_each_to_values.
  repeat split.
  - by rewrite run_app.
  - rewrite (run_app B H (n :: T)). done.
  - by apply step_notice.
Qed.

Lemma notice_drops_itself_and_one_user_witness :
  ∃ before after : list ChatMessage,
    for_each (to_set ["other"]) [] (to_values [assistant "Hi"; user "X"])
    = Normal (to_values before)
    ∧ for_each (to_set ["other"]) []
        (to_values ([assistant "Hi"; user "X"]
                    ++ [assistant "Prompt was BLOCKED by Guardrails."]))
      = Normal (to_values after)
    ∧ for_each (to_set ["other"]) []
        (to_values ([assistant "Hi"; user "X"]
                    ++ assistant "Prompt was BLOCKED by Guardrails."
                       :: [user "Y"]))
      = for_each (to_set ["other"]) (to_values after) (to_values [user "Y"])
    ∧ ((∃ u, role u = "user" ∧ before = after ++ [u])
       ∨ (after = before ∧ ∀ cs u, before = cs ++ [u] -> role u ≠ "user")).
Proof.
  apply (notice_drops_itself_and_one_user
           ["other"] [assistant "Hi"; user "X"] [user "Y"]
           (assistant "Prompt was BLOCKED by Guardrails.")); reflexivity.
Defined.

(** The two histories of the specification: a notice after its prompt
    takes the prompt with it, a notice alone only goes itself. *)
Example notice_after_user :
  buildModelMessages
    (to_values [user "hello"; assistant "hi there"; user "X";
                assistant "Sorry: Prompt was blocked by guardrails."])
    (to_set [])
  = Normal (system_message :: to_values [user "hello"; assistant "hi there"]).
Proof. reflexivity. Qed.

Example notice_alone :
  buildModelMessages
    (to_values [assistant "Response was blocked by guardrails."]) (to_set [])
  = Normal [system_message].
Proof. reflexivity. Qed.

Example notice_pops_one_user_only :
  buildModelMessages
    (to_values [user "A"; user "B"; assistant "blocked by guardrails"])
    (to_set [])
  = Normal (system_message :: to_values [user "A"]).
Proof. reflexivity. Qed.

(** *** The arrays of [buildModelMessages] *)

Section InPlaceFacts.

Import InPlace.

Implicit Types (h : gmap nat (list value)) (l : nat) (a : list value).

Lemma alter_Some (f : list value -> list value) l h a :
  h !! l = Some a -> alter f l h = <[l := f a]> h.
Proof.
  intros Hl. apply map_eq. intros j.
  rewrite lookup_alter, lookup_insert.
  case_decide; subst; by rewrite ?Hl.
Qed.

Lemma array_length_eq l h a :
  h !! l = Some a -> array_length l h = (Done (length a), h).
Proof.
  intros Hl. unfold array_length, read, mbind, M_bind, mret, M_ret.
  by rewrite Hl.
Qed.

Lemma at_index_eq l i h a :
  h !! l = Some a -> at_index l i h = (Done (index a i), h).
Proof.
  intros Hl. unfold at_index, read, mbind, M_bind, mret, M_ret.
  by rewrite Hl.
Qed.

Lemma bind_eq {A B} (m : M A) (f : A -> M B) h x h' :
  m h = (Done x, h') -> (m ≫= f) h = f x h'.
Proof. intros Hm. unfold mbind, M_bind. by rewrite Hm. Qed.

Lemma bind_lift {A B} (c : completion A) (f : A -> M B) h :
  (lift c ≫= f) h
  = match c with Normal x => f x h | Throw e => (Raised e, h) end.
Proof. by destruct c. Qed.

(** One iteration changes the array [cleaned] and nothing else. *)
Lemma loop_body_store blocked cleaned m cs h :
  h !! cleaned = Some cs ->
  InPlace.loop_body blocked cleaned m h
  = match Server.loop_body blocked cs m with
    | Normal cs' => (Done tt, <[cleaned := cs']> h)
    | Throw e => (Raised e, h)
    end.
Proof.
  intros Hcs. unfold InPlace.loop_body, Server.loop_body.
  assert (Hid : <[cleaned := cs]> h = h) by by apply insert_id.
  rewrite bind_lift.
  destruct (get m "role") as [r|e]; simpl; [|done].
  destruct (is_str r "system"); [simpl; by rewrite Hid|].
  rewrite bind_lift.
  destruct (is_blocked_user blocked m) as [b|e]; simpl; [|done].
  destruct b; [simpl; by rewrite Hid|].
  rewrite bind_lift.
  destruct (looksLikeGuardrailNotice m) as [n|e]; simpl; [|done].
  destruct n.
  - rewrite (bind_eq _ _ _ _ _ (array_length_eq _ _ _ Hcs)).
    unfold last_is_user.
    destruct (bool_decide (length cs ≠ 0%nat)).
    + unfold at_index, read, lift, pop, mbind, M_bind, completion_bind, mret,
        M_ret, completion_ret.
      rewrite Hcs. simpl.
      destruct (get (index cs (length cs - 1)) "role") as [r'|e]; [|done].
      destruct (is_str r' "user"); [|by rewrite Hid].
      by rewrite (alter_Some _ _ _ _ Hcs).
    + unfold mbind, M_bind, mret, M_ret. simpl. by rewrite Hid.
  - unfold push. by rewrite (alter_Some _ _ _ _ Hcs).
Qed.


Lemma index_drop (H : list value) i m :
  H !! i = Some m -> index H i = m ∧ drop i H = m :: drop (S i) H.
Proof.
  intros Hi. unfold index. rewrite Hi. split; [done|].
  by apply drop_S.
Qed.

(** The loop from index [i] leaves in [cleaned] what [Server.for_each]
    computes from the messages at [i] and after, and touches no other
    array; a fuel above the number of messages left is enough. *)
Lemma for_loop_store blocked raw cleaned H : forall fuel i cs h,
  raw ≠ cleaned ->
  h !! raw = Some H ->
  h !! cleaned = Some cs ->
  (length H - i < fuel)%nat ->
  ∃ cs',
    for_loop fuel blocked raw cleaned i h
    = (match for_each blocked cs (drop i H) with
       | Normal _ => Done tt
       | Throw e => Raised e
       end, <[cleaned := cs']> h)
    ∧ (forall c, for_each blocked cs (drop i H) = Normal c -> cs' = c).
Proof.
  induction fuel as [|fuel IH]; intros i cs h Hne Hraw Hcs Hfuel; [lia|].
  simpl.
  rewrite (bind_eq _ _ _ _ _ (array_length_eq _ _ _ Hraw)).
  destruct (i <? length H)%nat eqn:Ei.
  - apply Nat.ltb_lt in Ei.
    destruct (lookup_lt_is_Some_2 H i Ei) as [m Hm].
    destruct (index_drop H i m Hm) as [Hidx Hdrop].
    rewrite (bind_eq _ _ _ _ _ (at_index_eq _ i _ _ Hraw)).
    rewrite Hidx, Hdrop. simpl.
    unfold mbind at 1, M_bind.
    rewrite (loop_body_store _ _ _ _ _ Hcs).
    destruct (Server.loop_body blocked cs m) as [cs1|e]; simpl.
    + destruct (IH (S i) cs1 (<[cleaned := cs1]> h)) as (cs' & Hrun & Hcs').
      * done.
      * by rewrite lookup_insert_ne.
      * by rewrite lookup_insert_eq.
      * lia.
      * exists cs'. rewrite Hrun, insert_insert_eq. done.
    + exists cs. rewrite insert_id by done. done.
  - apply Nat.ltb_ge in Ei. rewrite drop_ge by done. simpl.
    exists cs. rewrite insert_id by done. split; [done|].
    by intros c [= ->].
Qed.

Lemma preserved_refl h : preserved h h.
Proof. by intros l a. Qed.

Lemma preserved_insert h h' l a :
  preserved h h' -> h !! l = None -> preserved h (<[l := a]> h').
Proof.
  intros Hp Hl j b Hj. rewrite lookup_insert_ne; [by apply Hp|].
  intros ->. congruence.
Qed.

Lemma preserved_None h h' l : preserved h h' -> h' !! l = None -> h !! l = None.
Proof.
  intros Hp Hl. destruct (h !! l) as [a|] eqn:E; [|done].
  apply Hp in E. congruence.
Qed.

Lemma new_array_eq init h :
  new_array init h = (Done (fresh (dom h)), <[fresh (dom h) := init]> h)
  ∧ h !! fresh (dom h) = None.
Proof. split; [done|]. apply not_elem_of_dom, is_fresh. Qed.

(** C10: run on a store where [raw] holds the history [H], with fuel for
    its loop, [buildModelMessages] leaves [raw] and every other array of
    that store as they were; the arrays it pushes to and pops from are its
    own, and what it returns is a new array holding the result (or it
    throws where the function on values throws). *)
Theorem buildModelMessages_leaves_input_intact
    (h : gmap nat (list value)) (raw : nat) (H blocked : list value)
    (fuel : nat) :
  h !! raw = Some H ->
  (length H < fuel)%nat ->
  ∃ res h',
    InPlace.buildModelMessages fuel raw blocked h = (res, h')
    ∧ h' !! raw = Some H
    ∧ preserved h h'
    ∧ match Server.buildModelMessages H blocked with
      | Normal out => ∃ l, res = Done l ∧ h !! l = None ∧ h' !! l = Some out
      | Throw e => res = Raised e
      end.
Proof.
  intros Hraw Hfuel.
  unfold InPlace.buildModelMessages, Server.buildModelMessages.
  destruct (new_array_eq [] h) as [Emsgs Hmsgs].
  set (msgs := fresh (dom h)) in *.
  rewrite (bind_eq _ _ _ _ _ Emsgs).
  set (h1 := <[msgs := []]> h).
  assert (H1 : h1 !! msgs = Some []) by apply lookup_insert_eq.
  assert (Epush : push msgs system_message h1
                  = (Done tt, <[msgs := [system_message]]> h)).
  { unfold push. rewrite (alter_Some _ _ _ _ H1). unfold h1.
    by rewrite insert_insert_eq. }
  rewrite (bind_eq _ _ _ _ _ Epush).
  set (h2 := <[msgs := [system_message]]> h).
  assert (P2 : preserved h h2)
    by (apply preserved_insert; [apply preserved_refl|done]).
  destruct (new_array_eq [] h2) as [Ecl Hcl].
  set (cleaned := fresh (dom h2)) in *.
  rewrite (bind_eq _ _ _ _ _ Ecl).
  set (h3 := <[cleaned := []]> h2).
  assert (Hcl0 : h !! cleaned = None) by (by apply (preserved_None h h2)).
  assert (Hne : raw ≠ cleaned) by (intros ->; congruence).
  assert (Hnm : msgs ≠ cleaned).
  { intros E. rewrite <- E in Hcl. unfold h2 in Hcl.
    by rewrite lookup_insert_eq in Hcl. }
  destruct (for_loop_store blocked raw cleaned H fuel 0%nat [] h3)
    as (cs' & Eloop & Hcs'); [done| | |lia|].
  { unfold h3. rewrite lookup_insert_ne by done. by apply P2. }
  { apply lookup_insert_eq. }
  rewrite drop_0 in Eloop, Hcs'.
  unfold mbind at 1, M_bind. rewrite Eloop.
  replace (<[cleaned := cs']> h3) with (<[cleaned := cs']> h2)
    by (unfold h3; by rewrite insert_insert_eq).
  set (h4 := <[cleaned := cs']> h2).
  assert (P4 : preserved h h4) by (by apply preserved_insert).
  assert (H4c : h4 !! cleaned = Some cs') by apply lookup_insert_eq.
  assert (H4m : h4 !! msgs = Some [system_message]).
  { unfold h4, h2. rewrite lookup_insert_ne by done. apply lookup_insert_eq. }
  destruct (for_each blocked [] H) as [cs|e]; simpl.
  - specialize (Hcs' cs eq_refl). subst cs'.
    rewrite (bind_eq _ _ _ _ _ (array_length_eq _ _ _ H4c)).
    unfold windowed.
    destruct (16 <? length cs)%nat.
    + destruct (new_array_eq (drop (length cs - 16) cs) h4) as [Ew Hw].
      set (w := fresh (dom h4)) in *.
      assert (Eslice : slice cleaned (length cs - 16) h4
                = (Done w, <[w := drop (length cs - 16) cs]> h4)).
      { unfold slice, read, mbind, M_bind. rewrite H4c. simpl. apply Ew. }
      rewrite (bind_eq _ _ _ _ _ Eslice).
      set (h5 := <[w := drop (length cs - 16) cs]> h4).
      assert (P5 : preserved h h5)
        by (apply preserved_insert; [done|by apply (preserved_None h h4)]).
      assert (Hwm : msgs ≠ w) by (intros E; rewrite <- E in Hw; congruence).
      destruct (new_array_eq ([system_message] ++ drop (length cs - 16) cs) h5)
        as [Eout Hout].
      set (out := fresh (dom h5)) in *.
      exists (Done out), (<[out := [system_message] ++ drop (length cs - 16) cs]> h5).
      assert (P6 : preserved h
                (<[out := [system_message] ++ drop (length cs - 16) cs]> h5))
        by (apply preserved_insert; [done|by apply (preserved_None h h5)]).
      repeat split.
      * unfold concat, read, mbind, M_bind. unfold h5 at 1 2.
        rewrite lookup_insert_ne by done. rewrite H4m.
        fold h5. unfold h5 at 1. rewrite lookup_insert_eq. simpl. apply Eout.
      * by apply P6.
      * done.
      * exists out. split; [done|]. split; [by apply (preserved_None h h5)|].
        apply lookup_insert_eq.
    + destruct (new_array_eq ([system_message] ++ cs) h4) as [Eout Hout].
      set (out := fresh (dom h4)) in *.
      exists (Done out), (<[out := [system_message] ++ cs]> h4).
      assert (P6 : preserved h (<[out := [system_message] ++ cs]> h4))
        by (apply preserved_insert; [done|by apply (preserved_None h h4)]).
      repeat split.
      * unfold concat, read, mbind, M_bind, mret, M_ret.
        rewrite H4m, H4c. simpl. apply Eout.
      * by apply P6.
      * done.
      * exists out. split; [done|]. split; [by apply (preserved_None h h4)|].
        apply lookup_insert_eq.
  - exists (Raised e), h4. repeat split; [by apply P4|done].
Qed.

Lemma buildModelMessages_leaves_input_intact_witness :
  ∃ res h',
    InPlace.buildModelMessages 3 7 [] Samples.store = (res, h')
    ∧ h' !! 7%nat = Some Samples.history
    ∧ preserved Samples.store h'
    ∧ match Server.buildModelMessages Samples.history [] with
      | Normal out =>
          ∃ l, res = Done l ∧ Samples.store !! l = None ∧ h' !! l = Some out
      | Throw e => res = Raised e
      end.
Proof.
  apply (buildModelMessages_leaves_input_intact
           Samples.store 7 Samples.history [] 3).
  - reflexivity.
  - simpl. lia.
Defined.

(** Without fuel for the loop the run stops there. *)
Example buildModelMessages_out_of_fuel :
  fst (InPlace.buildModelMessages 0 7 [] Samples.store) = OutOfFuel.
Proof. reflexivity. Qed.

End InPlaceFacts.

(** *** The classifier *)

Import Spec.

Lemma array_head_first_error {A} body k (f : option GatewayError -> completion A) :
  nullish body = false ->
  (arr ← array_field body k; r ← first_error arr; f r)
  = match object_array_head (prop body k) with
    | Some e =>
        if nullish e then Throw TypeError
        else f (Some {| code := prop e "code"; message := prop e "message" |})
    | None => f None
    end.
Proof.
  intros Hb. unfold array_field. rewrite !(get_not_nullish _ _ Hb). simpl.
  destruct (prop body k) as [| | | | |elems|]; try done.
  simpl. destruct elems as [|e elems]; [done|].
  unfold first_error, object_array_head. simpl.
  change (index (e :: elems) 0) with e.
  case_bool_decide; [|done]. simpl.
  unfold get. by destruct (nullish e).
Qed.

Lemma string_field_string_valued {A} body k
    (f : option GatewayError -> completion A) :
  nullish body = false ->
  (r ← string_field body k; f r)
  = f (match string_valued (prop body k) with
       | Some s => Some (message_only s)
       | None => None
       end).
Proof.
  intros Hb. unfold string_field. rewrite !(get_not_nullish _ _ Hb). simpl.
  by destruct (prop body k).
Qed.

Lemma bind_ret_r {A} (m : completion A) : m ≫= mret = m.
Proof. by destruct m. Qed.

Lemma parseGatewayError_object body :
  nullish body = false ->
  truthy body && bool_decide (typeof body = "object") = true ->
  parseGatewayError body
  = Normal
      match object_array_head (prop body "error") with
      | Some e => from_element e
      | None =>
      match object_array_head (prop body "errors") with
      | Some e => from_element e
      | None =>
      match string_valued (prop body "error") with
      | Some s => message_only s
      | None =>
      match string_valued (prop body "message") with
      | Some s => message_only s
      | None =>
      match string_valued (prop body "detail") with
      | Some s => message_only s
      | None => no_error
      end end end end end.
Proof.
  intros Hb Ho. unfold parseGatewayError, try_block. rewrite Ho.
  rewrite (array_head_first_error body "error") by done.
  unfold from_element.
  destruct (object_array_head (prop body "error")) as [e|];
    [by destruct (nullish e)|].
  rewrite (array_head_first_error body "errors") by done.
  destruct (object_array_head (prop body "errors")) as [e|];
    [by destruct (nullish e)|].
  rewrite (string_field_string_valued body "error") by done.
  destruct (string_valued (prop body "error")); [done|].
  rewrite (string_field_string_valued body "message") by done.
  destruct (string_valued (prop body "message")); [done|].
  rewrite <- (bind_ret_r (string_field body "detail")).
  rewrite (string_field_string_valued body "detail") by done.
  by destruct (string_valued (prop body "detail")).
Qed.

Lemma parseGatewayError_classify body :
  parseGatewayError body = Normal (classify body).
Proof.
  destruct body as [| |b|n|s|elems|props]; try done.
  - by destruct b.
  - unfold parseGatewayError, try_block. simpl. by destruct (n =? 0).
  - unfold parseGatewayError, try_block. simpl. by case_bool_decide.
  - by apply parseGatewayError_object.
Qed.

(** C4: whatever the body, [parseGatewayError] completes normally, never
    by an exception, and its result is that of the first of the five
    shapes the body matches, the empty result when it matches none or
    when reading the matched element throws. *)
Theorem parseGatewayError_classifies (body : value) :
  ∃ r : GatewayError,
    parseGatewayError body = Normal r
    ∧ r = classify body
    ∧ (forall e, try_block body = Throw e -> r = no_error)
    ∧ (try_block body = Normal None -> r = no_error).
Proof.
  exists (classify body). split; [apply parseGatewayError_classify|].
  split; [done|].
  pose proof (parseGatewayError_classify body) as Hc.
  unfold parseGatewayError in Hc.
  split.
  - intros e He. rewrite He in Hc. simpl in Hc. by injection Hc as <-.
  - intros He. rewrite He in Hc. simpl in Hc. by injection Hc as <-.
Qed.

(** The classifications listed in the specification. *)
Example classify_error_array :
  parseGatewayError
    (VObj [("error", VArr [VObj [("code", VNum 2016); ("message", VStr "m")]])])
  = Normal {| code := VNum 2016; message := VStr "m" |}.
Proof. reflexivity. Qed.

Example classify_errors_array :
  parseGatewayError
    (VObj [("errors", VArr [VObj [("code", VNum 2017); ("message", VStr "r")]]);
           ("message", VStr "ignored")])
  = Normal {| code := VNum 2017; message := VStr "r" |}.
Proof. reflexivity. Qed.

Example classify_message :
  parseGatewayError (VObj [("message", VStr "oops")])
  = Normal {| code := VUndefined; message := VStr "oops" |}.
Proof. reflexivity. Qed.

Example classify_empty_object : parseGatewayError (VObj []) = Normal no_error.
Proof. reflexivity. Qed.

Example classify_null : parseGatewayError VNull = Normal no_error.
Proof. reflexivity. Qed.

(** Reading [code] off a [null] element throws inside the [try]; the
    later shapes are then not tried. *)
Example classify_null_element :
  try_block (VObj [("error", VArr [VNull]); ("message", VStr "oops")])
  = Throw TypeError
  ∧ parseGatewayError (VObj [("error", VArr [VNull]); ("message", VStr "oops")])
    = Normal no_error.
Proof. split; reflexivity. Qed.

(** *** The request handler *)

Lemma is_num_spec v n : is_num v n = true <-> v = VNum n.
Proof.
  destruct v; simpl; try (split; [done|by intros [=]]).
  rewrite Z.eqb_eq. split; [by intros ->|by intros [=]].
Qed.

Lemma is_num_false v n : v ≠ VNum n -> is_num v n = false.
Proof.
  intros Hv. destruct (is_num v n) eqn:E; [|done].
  by apply is_num_spec in E.
Qed.

Lemma new_Response_accepted init :
  200 ≤ resp_status init ≤ 599 ->
  resp_status init ≠ 204 -> resp_status init ≠ 205 ->
  resp_status init ≠ 304 ->
  new_Response init = Normal init.
Proof.
  intros [Hlo Hhi] H204 H205 H304. unfold new_Response, null_body_status.
  rewrite (proj2 (Z.leb_le _ _) Hlo), (proj2 (Z.leb_le _ _) Hhi). simpl.
  rewrite !(proj2 (Z.eqb_neq _ _)) by lia. done.
Qed.

Lemma new_Response_refused init :
  resp_status init < 200 ∨ 599 < resp_status init
  ∨ resp_status init = 204 ∨ resp_status init = 205
  ∨ resp_status init = 304 ->
  ∃ e, new_Response init = Throw e.
Proof.
  intros H. unfold new_Response, null_body_status.
  destruct ((200 <=? resp_status init) && (resp_status init <=? 599)) eqn:E;
    simpl; [|by eexists].
  apply andb_true_iff in E as [Hlo%Z.leb_le Hhi%Z.leb_le].
  destruct H as [H|[H|[H|[H|H]]]]; try lia; rewrite H; by eexists.
Qed.

(** C5, as the handler has it: when the model call answers with a
    response that is not [ok], the text of the reply is the prompt
    sentence for the classified code 2016, the response sentence for
    2017, otherwise the classified message when it is a non-empty
    string, and the generic sentence in every other case, a body that
    does not parse included.  The reply carries that text as [{error:
    text}] with the status of the model's response when [new Response]
    accepts that status with a body (200..599, not 204, 205 or 304);
    for any other status the construction throws and the reply is the
    internal error of the outer [catch]. *)
Theorem failure_response_mapping
    (AI_run : list value -> completion AiResponse)
    (request_json : completion value) (msgs : list value) (ai : AiResponse) :
  model_messages request_json = Normal msgs ->
  AI_run msgs = Normal ai ->
  ok ai = false ->
  ∃ text : string,
    (200 ≤ status ai ≤ 599 ->
     status ai ≠ 204 -> status ai ≠ 205 -> status ai ≠ 304 ->
     handleChatRequest AI_run request_json
     = {| resp_status := status ai;
          resp_headers := [("Content-Type", "application/json")];
          resp_body := JsonBody (VObj [("error", VStr text)]) |})
    ∧ (status ai < 200 ∨ 599 < status ai
       ∨ status ai = 204 ∨ status ai = 205 ∨ status ai = 304 ->
       handleChatRequest AI_run request_json = internal_error)
    ∧ (forall body e,
         json ai = Normal body ->
         parseGatewayError body = Normal e ->
         (code e = VNum 2016 -> text = "Prompt was blocked by guardrails.")
         ∧ (code e = VNum 2017 -> text = "Response was blocked by guardrails.")
         ∧ (code e ≠ VNum 2016 -> code e ≠ VNum 2017 ->
            forall s, message e = VStr s -> s ≠ "" -> text = s)
         ∧ (code e ≠ VNum 2016 -> code e ≠ VNum 2017 ->
            (forall s, message e = VStr s -> s = "") ->
            text = "An error occurred while processing your request."))
    ∧ (forall err,
         json ai = Throw err ->
         text = "An error occurred while processing your request.").
Proof.
  intros Hm Hai Hok. exists (user_message ai).
  assert (Hreply : handleChatRequest AI_run request_json
                   = match new_Response (failure_response ai) with
                     | Normal r => r
                     | Throw _ => internal_error
                     end).
  { unfold handleChatRequest, respond. rewrite Hm. simpl.
    rewrite Hai. simpl. by rewrite Hok. }
  split; [|split; [|split]].
  - intros Hrange H204 H205 H304. rewrite Hreply.
    by rewrite (new_Response_accepted (failure_response ai)).
  - intros Hbad. rewrite Hreply.
    by destruct (new_Response_refused (failure_response ai) Hbad) as [e ->].
  - intros body e Hj He. unfold user_message. rewrite Hj. simpl.
    rewrite He. simpl. repeat split.
    + intros ->. done.
    + intros ->. done.
    + intros H16 H17 s Hs Hne.
      rewrite (is_num_false _ _ H16), (is_num_false _ _ H17), Hs. simpl.
      by rewrite bool_decide_eq_false_2.
    + intros H16 H17 Hs.
      rewrite (is_num_false _ _ H16), (is_num_false _ _ H17).
      destruct (message e) as [| | | |s| |]; try done.
      simpl. by rewrite (Hs s eq_refl).
  - intros err Hj. unfold user_message. by rewrite Hj.
Qed.

Lemma failure_response_mapping_witness :
  ∃ text : string,
    (200 ≤ status Samples.prompt_rejection ≤ 599 ->
     status Samples.prompt_rejection ≠ 204 ->
     status Samples.prompt_rejection ≠ 205 ->
     status Samples.prompt_rejection ≠ 304 ->
     handleChatRequest (fun _ => Normal Samples.prompt_rejection)
       (Normal (VObj []))
     = {| resp_status := status Samples.prompt_rejection;
          resp_headers := [("Content-Type", "application/json")];
          resp_body := JsonBody (VObj [("error", VStr text)]) |})
    ∧ (status Samples.prompt_rejection < 200
       ∨ 599 < status Samples.prompt_rejection
       ∨ status Samples.prompt_rejection = 204
       ∨ status Samples.prompt_rejection = 205
       ∨ status Samples.prompt_rejection = 304 ->
       handleChatRequest (fun _ => Normal Samples.prompt_rejection)
         (Normal (VObj []))
       = internal_error)
    ∧ (forall body e,
         json Samples.prompt_rejection = Normal body ->
         parseGatewayError body = Normal e ->
         (code e = VNum 2016 -> text = "Prompt was blocked by guardrails.")
         ∧ (code e = VNum 2017 -> text = "Response was blocked by guardrails.")
         ∧ (code e ≠ VNum 2016 -> code e ≠ VNum 2017 ->
            forall s, message e = VStr s -> s ≠ "" -> text = s)
         ∧ (code e ≠ VNum 2016 -> code e ≠ VNum 2017 ->
            (forall s, message e = VStr s -> s = "") ->
            text = "An error occurred while processing your request."))
    ∧ (forall err,
         json Samples.prompt_rejection = Throw err ->
         text = "An error occurred while processing your request.").
Proof.
  apply (failure_response_mapping (fun _ => Normal Samples.prompt_rejection)
           (Normal (VObj [])) [system_message] Samples.prompt_rejection);
    reflexivity.
Defined.

(** A failure with status 304: the reply is not built with that status,
    [new Response] refusing a body for it, and the client is answered
    500 with the text of the outer [catch]. *)
Lemma status_304_is_answered_500 :
  ok Samples.rejection_304 = false
  ∧ status Samples.rejection_304 = 304
  ∧ handleChatRequest (fun _ => Normal Samples.rejection_304)
      (Normal (VObj [("messages", VArr [])]))
    = internal_error
  ∧ resp_status
      (handleChatRequest (fun _ => Normal Samples.rejection_304)
         (Normal (VObj [("messages", VArr [])])))
    = 500
  ∧ resp_status
      (handleChatRequest (fun _ => Normal Samples.rejection_304)
         (Normal (VObj [("messages", VArr [])])))
    ≠ status Samples.rejection_304.
Proof. repeat split. discriminate. Qed.

(** The four replies, run. *)
Example failure_2016 :
  handleChatRequest
    (fun _ => Normal {| ok := false; status := 424;
                        json := Normal (VObj [("errors",
                                  VArr [VObj [("code", VNum 2016)]])]);
                        chunks := None |})
    (Normal (VObj [("messages", VArr [])]))
  = {| resp_status := 424;
       resp_headers := [("Content-Type", "application/json")];
       resp_body :=
         JsonBody (VObj [("error", VStr "Prompt was blocked by guardrails.")]) |}.
Proof. reflexivity. Qed.

Example failure_message_verbatim :
  handleChatRequest
    (fun _ => Normal {| ok := false; status := 503;
                        json := Normal (VObj [("detail", VStr "model overloaded")]);
                        chunks := None |})
    (Normal (VObj [("messages", VArr [])]))
  = {| resp_status := 503;
       resp_headers := [("Content-Type", "application/json")];
       resp_body := JsonBody (VObj [("error", VStr "model overloaded")]) |}.
Proof. reflexivity. Qed.

Example failure_unparsable_body :
  handleChatRequest
    (fun _ => Normal {| ok := false; status := 502;
                        json := Throw SyntaxError; chunks := None |})
    (Normal (VObj [("messages", VArr [])]))
  = {| resp_status := 502;
       resp_headers := [("Content-Type", "application/json")];
       resp_body :=
         JsonBody (VObj [("error",
                     VStr "An error occurred while processing your request.")]) |}.
Proof. reflexivity. Qed.

(** *** Bodies of any shape *)

Lemma index_last_Forall (P : value -> Prop) cs :
  Forall P cs -> length cs ≠ 0%nat -> P (index cs (length cs - 1)).
Proof.
  destruct cs as [|c cs _] using rev_ind; [done|].
  intros [_ Hc]%Forall_app _.
  rewrite index_last. by inversion Hc.
Qed.

Lemma is_blocked_user_total blocked m :
  nullish m = false -> ∃ b, is_blocked_user blocked m = Normal b.
Proof.
  intros Hm. unfold is_blocked_user. rewrite !(get_not_nullish _ _ Hm). simpl.
  destruct (is_str _ _); [|by eexists].
  case_bool_decide; by eexists.
Qed.

Lemma looksLikeGuardrailNotice_total m :
  nullish m = false -> ∃ b, looksLikeGuardrailNotice m = Normal b.
Proof.
  intros Hm. unfold looksLikeGuardrailNotice.
  rewrite !(get_not_nullish _ _ Hm). simpl.
  destruct (is_str _ _); [|by eexists].
  destruct (prop m "content"); simpl; by eexists.
Qed.

(** An iteration on a message that is not [null] does not throw. *)
Lemma loop_body_total blocked cs m :
  nullish m = false ->
  Forall (fun x => nullish x = false) cs ->
  ∃ cs', loop_body blocked cs m = Normal cs'
         ∧ Forall (fun x => nullish x = false) cs'.
Proof.
  intros Hm Hcs. unfold loop_body. rewrite (get_not_nullish _ _ Hm). simpl.
  destruct (is_str _ _); [by exists cs|].
  destruct (is_blocked_user_total blocked m Hm) as [b ->]. simpl.
  destruct b; [by exists cs|].
  destruct (looksLikeGuardrailNotice_total m Hm) as [n ->]. simpl.
  destruct n.
  - unfold last_is_user. case_bool_decide as Hlen; simpl; [|by exists cs].
    rewrite (get_not_nullish _ "role"
               (index_last_Forall (fun x => nullish x = false) cs Hcs Hlen)).
    simpl. destruct (is_str _ _); [|by exists cs].
    exists (removelast cs). split; [done|]. by apply Forall_removelast.
  - exists (cs ++ [m]). split; [done|].
    apply Forall_app. split; [done|]. by apply Forall_singleton.
Qed.

(** An iteration on [null] throws. *)
Lemma loop_body_null blocked cs m :
  nullish m = true -> loop_body blocked cs m = Throw TypeError.
Proof. intros Hm. unfold loop_body, get. by rewrite Hm. Qed.

Lemma for_each_total blocked raw : forall cs,
  Forall (fun x => nullish x = false) raw ->
  Forall (fun x => nullish x = false) cs ->
  ∃ cs', for_each blocked cs raw = Normal cs'.
Proof.
  induction raw as [|m raw IH]; intros cs Hraw Hcs; [by exists cs|].
  apply Forall_cons in Hraw as [Hm Hraw]. simpl.
  destruct (loop_body_total blocked cs m Hm Hcs) as (cs1 & -> & Hcs1). simpl.
  by apply IH.
Qed.

Lemma for_each_null blocked raw : forall cs,
  Exists (fun x => nullish x = true) raw ->
  for_each blocked cs raw = Throw TypeError.
Proof.
  induction raw as [|m raw IH]; intros cs Hraw; [by apply Exists_nil in Hraw|].
  simpl. destruct (nullish m) eqn:Hm.
  - by rewrite loop_body_null.
  - apply Exists_cons in Hraw as [Hraw|Hraw]; [congruence|].
    destruct (loop_body blocked cs m) as [cs1|e] eqn:E; simpl.
    + by apply IH.
    + unfold loop_body in E. rewrite (get_not_nullish _ _ Hm) in E.
      simpl in E. destruct (is_str _ _); [done|].
      destruct (is_blocked_user_total blocked m Hm) as [b Hb].
      rewrite Hb in E. simpl in E. destruct b; [done|].
      destruct (looksLikeGuardrailNotice_total m Hm) as [n Hn].
      rewrite Hn in E. simpl in E. destruct n; [|done].
      destruct (last_is_user cs) as [[]|e'] eqn:El; simpl in E; try done.
      injection E as <-.
      unfold last_is_user, get, mbind, completion_bind, mret, completion_ret in El.
      destruct (bool_decide _); [|done].
      destruct (nullish (index cs (length cs - 1))); simpl in El; [|done].
      by injection El as <-.
Qed.

(** Whatever values the history holds, as long as none is [null]: the
    messages after the system message are not system messages, and none
    is a user message whose string content the block set has. *)
Lemma loop_body_kept blocked cs m cs' :
  loop_body blocked cs m = Normal cs' ->
  Forall (fun x => is_str (prop x "role") "system" = false
                   ∧ is_blocked_user blocked x = Normal false) cs ->
  Forall (fun x => is_str (prop x "role") "system" = false
                   ∧ is_blocked_user blocked x = Normal false) cs'.
Proof.
  intros Hrun Hcs. unfold loop_body, get in Hrun.
  destruct (nullish m) eqn:Hm; [done|]. simpl in Hrun.
  destruct (is_str (prop m "role") "system") eqn:Hs;
    [by injection Hrun as <-|].
  destruct (is_blocked_user blocked m) as [[]|e] eqn:Hb; simpl in Hrun;
    [by injection Hrun as <-| |done].
  destruct (looksLikeGuardrailNotice m) as [[]|e]; simpl in Hrun; [| |done].
  - destruct (last_is_user cs) as [[]|e]; simpl in Hrun; [| |done];
      injection Hrun as <-; [by apply Forall_removelast|done].
  - injection Hrun as <-. apply Forall_app. split; [done|].
    by apply Forall_singleton.
Qed.

Lemma for_each_kept blocked raw : forall cs cs',
  for_each blocked cs raw = Normal cs' ->
  Forall (fun x => is_str (prop x "role") "system" = false
                   ∧ is_blocked_user blocked x = Normal false) cs ->
  Forall (fun x => is_str (prop x "role") "system" = false
                   ∧ is_blocked_user blocked x = Normal false) cs'.
Proof.
  induction raw as [|m raw IH]; intros cs cs' Hrun Hcs.
  - by injection Hrun as <-.
  - simpl in Hrun.
    destruct (loop_body blocked cs m) as [cs1|e] eqn:E; [|done].
    simpl in Hrun. eapply IH; [done|]. by eapply loop_body_kept.
Qed.

Lemma buildModelMessages_any_values raw blocked :
  Forall (fun m => nullish m = false) raw ->
  ∃ rest,
    buildModelMessages raw blocked = Normal (system_message :: rest)
    ∧ Forall (fun x => is_str (prop x "role") "system" = false
                       ∧ is_blocked_user blocked x = Normal false) rest
    ∧ (length rest ≤ 16)%nat.
Proof.
  intros Hraw.
  destruct (for_each_total blocked raw [] Hraw (Forall_nil_2 _)) as [cs Hcs].
  exists (windowed cs). unfold buildModelMessages. rewrite Hcs.
  split; [done|]. unfold windowed.
  pose proof (for_each_kept blocked raw [] cs Hcs (Forall_nil_2 _)) as Hk.
  destruct (16 <? length cs)%nat eqn:E.
  - split; [by apply Forall_drop|]. rewrite length_drop. lia.
  - apply Nat.ltb_ge in E. by split.
Qed.




(** Whatever the model does, a [null] among the messages leads to the
    outer [catch]. *)
Lemma null_message_is_answered_500
    (AI_run : list value -> completion AiResponse) (raw : value) :
  Exists (fun m => nullish m = true) (array_or_empty raw "messages") ->
  handleChatRequest AI_run (Normal raw) = internal_error.
Proof.
  intros Hnull. unfold handleChatRequest, model_messages, buildModelMessages.
  simpl. by rewrite for_each_null.
Qed.

End ServerFacts.

(** * Properties of the client *)

Module ClientFacts.

Import Client.

(** *** The block list *)

Lemma includes_spec l t : includes l t = true <-> t ∈ l.
Proof. unfold includes. apply bool_decide_eq_true. Qed.

Lemma rememberBlockedUser_present t l :
  t ∈ l -> rememberBlockedUser t l = l.
Proof.
  intros Ht. unfold rememberBlockedUser.
  case_bool_decide; [done|].
  by rewrite (proj2 (includes_spec l t) Ht).
Qed.

Lemma rememberBlockedUser_empty l : rememberBlockedUser "" l = l.
Proof. done. Qed.

Lemma rememberBlockedUser_new t l :
  t ≠ "" -> t ∉ l ->
  rememberBlockedUser t l
  = if (length l <? 20)%nat then l ++ [t] else tail l ++ [t].
Proof.
  intros Hne Hnin. unfold rememberBlockedUser, BLOCKLIST_LIMIT.
  rewrite bool_decide_eq_false_2 by done.
  destruct (includes l t) eqn:Ei; [by apply includes_spec in Ei|].
  simpl. rewrite length_app. simpl.
  destruct (20 <? length l + 1)%nat eqn:E1, (length l <? 20)%nat eqn:E2;
    try done.
  - apply Nat.ltb_lt in E1, E2. lia.
  - destruct l; [done|]. done.
  - apply Nat.ltb_ge in E1, E2. lia.
Qed.

Lemma rememberBlockedUser_invariant t l :
  NoDup l -> (length l ≤ 20)%nat ->
  NoDup (rememberBlockedUser t l) ∧ (length (rememberBlockedUser t l) ≤ 20)%nat.
Proof.
  intros Hnd Hlen.
  destruct (decide (t = "")) as [->|Hne]; [done|].
  destruct (decide (t ∈ l)) as [Hin|Hnin].
  - by rewrite rememberBlockedUser_present.
  - rewrite rememberBlockedUser_new by done.
    destruct (length l <? 20)%nat eqn:E.
    + apply Nat.ltb_lt in E. split.
      * apply NoDup_app. repeat split; [done| |apply NoDup_singleton].
        intros x Hx ->%list_elem_of_singleton. done.
      * rewrite length_app. simpl. lia.
    + destruct l as [|x l]; simpl in *.
      * split; [apply NoDup_singleton|lia].
      * apply NoDup_cons in Hnd as [_ Hnd]. split.
        -- apply NoDup_app. repeat split; [done| |apply NoDup_singleton].
           intros y Hy ->%list_elem_of_singleton.
           apply Hnin. by right.
        -- rewrite length_app. simpl. lia.
Qed.

Lemma remember_all_snoc texts t l :
  remember_all (texts ++ [t]) l = rememberBlockedUser t (remember_all texts l).
Proof. unfold remember_all. by rewrite fold_left_app. Qed.

Lemma remember_all_invariant texts :
  NoDup (remember_all texts []) ∧ (length (remember_all texts []) ≤ 20)%nat.
Proof.
  induction texts as [|t texts IH] using rev_ind.
  - split; [apply NoDup_nil_2|simpl; lia].
  - rewrite remember_all_snoc. destruct IH.
    by apply rememberBlockedUser_invariant.
Qed.

Lemma tail_drop {A} (l : list A) k : tail (drop k l) = drop (S k) l.
Proof.
  change (tail (drop k l)) with (drop 1 (drop k l)).
  by rewrite drop_drop, Nat.add_1_r.
Qed.

(** Distinct, non-empty texts: the list holds the last twenty of them. *)
Lemma remember_all_distinct texts :
  NoDup texts -> "" ∉ texts ->
  remember_all texts [] = drop (length texts - 20) texts.
Proof.
  induction texts as [|t texts IH] using rev_ind; intros Hnd Hne; [done|].
  apply NoDup_app in Hnd as (Hnd & Hdis & _).
  assert (Ht : t ∉ texts) by (intros Hin; apply (Hdis t Hin); by left).
  assert (Hne' : "" ∉ texts) by (intros Hin; apply Hne, elem_of_app; by left).
  assert (Ht0 : t ≠ "")
    by (intros ->; apply Hne, elem_of_app; right; by left).
  rewrite remember_all_snoc, IH by done.
  rewrite rememberBlockedUser_new; [|done|].
  2:{ intros Hin. apply Ht. by eapply subseteq_drop. }
  rewrite length_drop, length_app. simpl.
  destruct (length texts - (length texts - 20) <? 20)%nat eqn:E.
  - apply Nat.ltb_lt in E.
    replace (length texts - 20)%nat with 0%nat by lia.
    replace (length texts + 1 - 20)%nat with 0%nat by lia. done.
  - apply Nat.ltb_ge in E.
    replace (length texts + 1 - 20)%nat with (S (length texts - 20)) by lia.
    rewrite drop_app_le by lia.
    by rewrite tail_drop.
Qed.


(** *** Retracting a blocked turn *)

Lemma popLastUserTurn_from_spec : forall n history,
  (n ≤ length history)%nat ->
  Forall (fun m => role m ≠ "user") (drop n history) ->
  (Forall (fun m => role m ≠ "user") history
   ∧ popLastUserTurn_from n history = history)
  ∨ (∃ before u after,
       history = before ++ u :: after
       ∧ role u = "user"
       ∧ Forall (fun m => role m ≠ "user") after
       ∧ popLastUserTurn_from n history = before ++ after).
Proof.
  induction n as [|i IH]; intros history Hn Hafter.
  - left. by rewrite drop_0 in Hafter.
  - destruct (lookup_lt_is_Some_2 history i) as [m Hm]; [lia|].
    simpl. rewrite Hm. case_bool_decide as Hu.
    + right. exists (take i history), m, (drop (S i) history).
      split; [by rewrite take_drop_middle|].
      split; [done|]. split; [done|]. apply delete_take_drop.
    + apply IH; [lia|]. rewrite (drop_S _ _ _ Hm). by apply Forall_cons.
Qed.

(** [popLastUserTurn] removes the last user entry and nothing else; a
    history without user entries is left as it is. *)
Lemma popLastUserTurn_spec history :
  (Forall (fun m => role m ≠ "user") history
   ∧ popLastUserTurn history = history)
  ∨ (∃ before u after,
       history = before ++ u :: after
       ∧ role u = "user"
       ∧ Forall (fun m => role m ≠ "user") after
       ∧ popLastUserTurn history = before ++ after).
Proof.
  apply popLastUserTurn_from_spec; [done|].
  rewrite drop_all. apply Forall_nil_2.
Qed.

Lemma popLastUserTurn_pushed history t :
  popLastUserTurn (history ++ [{| role := "user"; content := t |}]) = history.
Proof.
  unfold popLastUserTurn. rewrite length_app, Nat.add_1_r. simpl.
  rewrite list_lookup_middle by done. simpl.
  rewrite delete_take_drop, take_app_length, drop_app_ge by (simpl; lia).
  rewrite drop_ge by (simpl; lia). by rewrite app_nil_r.
Qed.

Lemma sanitizedMessages_withholds history blocked t :
  t ∈ blocked ->
  Forall (fun m => ¬ (role m = "user" ∧ content m = t))
    (sanitizedMessages history blocked).
Proof.
  intros Ht. unfold sanitizedMessages.
  induction history as [|m history IH]; simpl; [done|].
  destruct (bool_decide (role m = "user") && includes blocked (content m))
    eqn:E; simpl; [done|].
  apply Forall_cons. split; [|done].
  intros [Hu Hc]. apply andb_false_iff in E as [E|E].
  - by apply bool_decide_eq_false in E.
  - subst t. apply includes_spec in Ht. congruence.
Qed.

(** A send from an idle client with a non-empty text issues one request,
    built from the block list as it stands. *)
Lemma sendMessage_idle u o st :
  isProcessing st = false -> u ≠ "" ->
  ∃ st',
    sendMessage u o st
    = (st', Some {| req_messages :=
                      sanitizedMessages
                        (chatHistory st ++ [{| role := "user"; content := u |}])
                        (blockedUserContents st);
                    req_blockedUserContents := blockedUserContents st |})
    ∧ isProcessing st' = false
    ∧ blockedUserContents st'
      = if prompt_blocked (u, o)
        then rememberBlockedUser u (blockedUserContents st)
        else blockedUserContents st.
Proof.
  intros Hidle Hu. unfold sendMessage.
  rewrite Hidle, bool_decide_eq_false_2 by done. simpl.
  destruct o as [data|acc|]; simpl.
  - destruct (wasPromptBlocked (mapError data)); by eexists.
  - by eexists.
  - by eexists.
Qed.

Lemma sendMessage_ignored o st : sendMessage "" o st = (st, None).
Proof. done. Qed.

Lemma sendMessage_withholds t u o st :
  isProcessing st = false -> u ≠ "" -> t ∈ blockedUserContents st ->
  ∃ st' req, sendMessage u o st = (st', Some req) ∧ withholds t req.
Proof.
  intros Hidle Hu Ht.
  destruct (sendMessage_idle u o st Hidle Hu) as (st' & -> & _).
  eexists _, _. split; [done|]. split; [done|]. simpl.
  by apply sanitizedMessages_withholds.
Qed.

(** An insert moves [t] at most one place nearer to the head of the list,
    and does not remove it while fewer than 19 entries follow it. *)
Lemma rememberBlockedUser_keeps t u before after :
  (length after < 19)%nat ->
  ∃ before' after',
    rememberBlockedUser u (before ++ t :: after) = before' ++ t :: after'
    ∧ (length after' ≤ S (length after))%nat.
Proof.
  intros Hlen.
  destruct (decide (u = "")) as [->|Hu]; [by exists before, after; split; [|lia]|].
  destruct (decide (u ∈ before ++ t :: after)) as [Hin|Hnin].
  { rewrite rememberBlockedUser_present by done.
    exists before, after. split; [done|lia]. }
  rewrite rememberBlockedUser_new by done.
  destruct (length (before ++ t :: after) <? 20)%nat eqn:E.
  - exists before, (after ++ [u]). split.
    + by rewrite <- app_assoc.
    + rewrite length_app. simpl. lia.
  - apply Nat.ltb_ge in E. rewrite length_app in E. simpl in E.
    destruct before as [|x before]; simpl in *; [lia|].
    exists before, (after ++ [u]). split.
    + by rewrite <- app_assoc.
    + rewrite length_app. simpl. lia.
Qed.

Lemma length_filter_cons {A} (f : A -> bool) x l :
  length (List.filter f (x :: l))
  = ((if f x then 1 else 0) + length (List.filter f l))%nat.
Proof. simpl. by destruct (f x). Qed.

Lemma session_keeps t : forall turns st before after,
  isProcessing st = false ->
  blockedUserContents st = before ++ t :: after ->
  (length after + length (List.filter prompt_blocked turns) < 20)%nat ->
  t ∈ blockedUserContents (fst (session turns st))
  ∧ Forall (withholds t) (snd (session turns st)).
Proof.
  induction turns as [|[u o] turns IH]; intros st before after Hidle Hl Hlen.
  - simpl. split; [|done]. rewrite Hl. apply elem_of_app. right. by left.
  - cbn [session].
    destruct (decide (u = "")) as [->|Hu].
    + rewrite sendMessage_ignored.
      destruct (session turns st) as [st'' rs] eqn:Es. simpl.
      specialize (IH st before after Hidle Hl). rewrite Es in IH.
      apply IH. rewrite length_filter_cons in Hlen. lia.
    + destruct (sendMessage_idle u o st Hidle Hu) as (st' & -> & Hidle' & Hl').
      assert (Ht : t ∈ blockedUserContents st)
        by (rewrite Hl; apply elem_of_app; right; by left).
      rewrite length_filter_cons in Hlen.
      assert (∃ before' after',
                 blockedUserContents st' = before' ++ t :: after'
                 ∧ (length after' + length (List.filter prompt_blocked turns)
                    < 20)%nat) as (before' & after' & Hl'' & Hlen').
      { rewrite Hl'. destruct (prompt_blocked (u, o)).
        - rewrite Hl.
          destruct (rememberBlockedUser_keeps t u before after)
            as (b' & a' & -> & Ha); [lia|].
          exists b', a'. split; [done|lia].
        - exists before, after. split; [done|lia]. }
      destruct (session turns st') as [st'' rs] eqn:Es. simpl.
      specialize (IH st' before' after' Hidle' Hl'' Hlen'). rewrite Es in IH.
      destruct IH as [IH1 IH2]. split; [done|].
      apply Forall_cons. split; [|done]. split; [done|]. simpl.
      by apply sanitizedMessages_withholds.
Qed.

(** *** The block list over a session *)

Lemma session_blocklist : forall turns st,
  isProcessing st = false ->
  blockedUserContents (fst (session turns st))
  = remember_all (inserted turns) (blockedUserContents st).
Proof.
  induction turns as [|[u o] turns IH]; intros st Hidle; [done|].
  cbn [session]. unfold inserted. cbn [List.filter fst].
  destruct (decide (u = "")) as [->|Hu].
  - rewrite sendMessage_ignored.
    specialize (IH st Hidle).
    destruct (session turns st) as [st'' rs]. simpl in *. exact IH.
  - destruct (sendMessage_idle u o st Hidle Hu) as (st' & -> & Hidle' & Hl).
    specialize (IH st' Hidle').
    destruct (session turns st') as [st'' rs].
    cbn [fst] in *. rewrite IH, Hl.
    rewrite (bool_decide_eq_false_2 _ Hu). cbn [negb andb].
    by destruct (prompt_blocked (u, o)).
Qed.

Lemma inserted_nonempty turns : "" ∉ inserted turns.
Proof.
  unfold inserted. induction turns as [|[u o] turns IH]; simpl.
  - by intros ?%elem_of_nil.
  - destruct (decide (u = "")) as [->|Hu]; [done|].
    rewrite (bool_decide_eq_false_2 _ Hu). simpl.
    destruct (match o with NotOk data => _ | _ => false end); [|done].
    simpl. intros [?|?]%elem_of_cons; [by subst|done].
Qed.

Lemma inserted_blocked_sends texts :
  "" ∉ texts ->
  inserted (List.map (fun t => (t, NotOk prompt_blocked_body)) texts) = texts.
Proof.
  unfold inserted. induction texts as [|t texts IH]; intros Hne; [done|].
  assert (Ht : t ≠ "") by (intros ->; apply Hne; by left).
  assert (Hne' : "" ∉ texts) by (intros Hin; apply Hne; by right).
  cbn [List.map List.filter fst].
  rewrite (bool_decide_eq_false_2 _ Ht).
  change (prompt_blocked (t, NotOk prompt_blocked_body)) with true.
  cbn [negb andb List.map fst]. by rewrite IH.
Qed.

(** C7: the block list of a session is what the inserts of its blocked
    prompts, none of them empty, make of the empty list.  Such a list
    holds distinct texts, at most 20 of them; inserting a text it
    already holds changes nothing, and inserting another appends it and,
    when the list was full, removes the oldest entry; so any number of
    distinct texts, 25 say, sent one after the other and each answered
    as a blocked prompt, leave the last 20 of them. *)
Theorem blocklist_is_bounded_fifo
    (turns : list (string * Outcome)) (texts : list string) :
  (blockedUserContents (fst (session turns initial))
   = remember_all (inserted turns) []
   ∧ "" ∉ inserted turns)
  ∧ NoDup (remember_all texts [])
  ∧ (length (remember_all texts []) ≤ 20)%nat
  ∧ (forall t, t ∈ remember_all texts [] ->
       rememberBlockedUser t (remember_all texts []) = remember_all texts [])
  ∧ (forall t, t ≠ "" -> t ∉ remember_all texts [] ->
       rememberBlockedUser t (remember_all texts [])
       = if (length (remember_all texts []) <? 20)%nat
         then remember_all texts [] ++ [t]
         else tail (remember_all texts []) ++ [t])
  ∧ (NoDup texts -> "" ∉ texts ->
     remember_all texts [] = drop (length texts - 20) texts
     ∧ blockedUserContents
         (fst (session
                 (List.map (fun t => (t, NotOk prompt_blocked_body)) texts)
                 initial))
       = drop (length texts - 20) texts).
Proof.
  destruct (remember_all_invariant texts) as [Hnd Hlen].
  split; [split; [by apply session_blocklist|apply inserted_nonempty]|].
  split; [done|]. split; [done|].
  split; [intros t; apply rememberBlockedUser_present|].
  split; [intros t; apply rememberBlockedUser_new|].
  intros Hdistinct Hne.
  split; [by apply remember_all_distinct|].
  rewrite session_blocklist by done.
  rewrite inserted_blocked_sends by done.
  by apply remember_all_distinct.
Qed.

Lemma blocklist_is_bounded_fifo_witness :
  remember_all (Samples.prompts24 ++ ["p25"]) []
  = drop 5 (Samples.prompts24 ++ ["p25"])
  ∧ blockedUserContents
      (fst (session
              (List.map (fun t => (t, NotOk prompt_blocked_body))
                 (Samples.prompts24 ++ ["p25"]))
              initial))
    = drop 5 (Samples.prompts24 ++ ["p25"]).
Proof.
  apply (blocklist_is_bounded_fifo [] (Samples.prompts24 ++ ["p25"])).
  - apply (bool_decide_unpack _). vm_compute. exact I.
  - apply (bool_decide_unpack _). vm_compute. exact I.
Defined.

(** C2, as the client has it: the send of a text [t] that is answered as
    a blocked prompt leaves the conversation as it was before the send,
    the pushed user message and only it being removed, and [t] in the
    block list.  Every later request built while [t] is in the block list
    names [t] as blocked and carries no user message with that content;
    and a [t] newly inserted is still in the block list, with every
    request withholding it, through any sends of which fewer than 20 are
    answered as blocked prompts. *)
Theorem blocked_prompt_is_retracted
    (st : State) (t : string) (data : completion value) :
  isProcessing st = false ->
  t ≠ "" ->
  wasPromptBlocked (mapError data) = true ->
  ∃ st' req,
    sendMessage t (NotOk data) st = (st', Some req)
    ∧ chatHistory st'
      = popLastUserTurn (chatHistory st ++ [{| role := "user"; content := t |}])
    ∧ chatHistory st' = chatHistory st
    ∧ isProcessing st' = false
    ∧ t ∈ blockedUserContents st'
    ∧ (forall later u o,
         isProcessing later = false -> u ≠ "" ->
         t ∈ blockedUserContents later ->
         ∃ later' req',
           sendMessage u o later = (later', Some req') ∧ withholds t req')
    ∧ (t ∉ blockedUserContents st ->
       forall turns,
         (length (List.filter prompt_blocked turns) < 20)%nat ->
         t ∈ blockedUserContents (fst (session turns st'))
         ∧ Forall (withholds t) (snd (session turns st'))).
Proof.
  intros Hidle Ht Hblocked.
  set (st' := {| chatHistory :=
                   popLastUserTurn
                     (chatHistory st ++ [{| role := "user"; content := t |}]);
                 blockedUserContents :=
                   rememberBlockedUser t (blockedUserContents st);
                 isProcessing := false;
                 lastSentUserText := t |}).
  exists st'. eexists.
  assert (Hin : forall l, t ∈ rememberBlockedUser t l).
  { intros l. destruct (decide (t ∈ l)) as [Hl|Hl].
    - by rewrite rememberBlockedUser_present.
    - rewrite rememberBlockedUser_new by done.
      destruct (_ <? _)%nat; apply elem_of_app; right; by left. }
  split; [|split; [|split; [|split; [|split; [|split]]]]].
  - unfold sendMessage.
    rewrite Hidle, bool_decide_eq_false_2 by done. simpl.
    by rewrite Hblocked.
  - done.
  - apply popLastUserTurn_pushed.
  - done.
  - apply Hin.
  - intros later u o Hl Hu Htl. by apply sendMessage_withholds.
  - intros Hnew turns Hturns.
    assert (∃ before, blockedUserContents st' = before ++ [t]) as [before Hb].
    { simpl. rewrite rememberBlockedUser_new by done.
      destruct (_ <? _)%nat; by eexists. }
    apply (session_keeps t turns st' before []); [done|done|]. simpl. lia.
Qed.

Lemma blocked_prompt_is_retracted_witness :
  ∃ st' req,
    sendMessage "bad" (NotOk prompt_blocked_body) initial = (st', Some req)
    ∧ chatHistory st'
      = popLastUserTurn
          (chatHistory initial ++ [{| role := "user"; content := "bad" |}])
    ∧ chatHistory st' = chatHistory initial
    ∧ isProcessing st' = false
    ∧ "bad" ∈ blockedUserContents st'
    ∧ (forall later u o,
         isProcessing later = false -> u ≠ "" ->
         "bad" ∈ blockedUserContents later ->
         ∃ later' req',
           sendMessage u o later = (later', Some req') ∧ withholds "bad" req')
    ∧ ("bad" ∉ blockedUserContents initial ->
       forall turns,
         (length (List.filter prompt_blocked turns) < 20)%nat ->
         "bad" ∈ blockedUserContents (fst (session turns st'))
         ∧ Forall (withholds "bad") (snd (session turns st'))).
Proof.
  apply (blocked_prompt_is_retracted initial "bad" prompt_blocked_body).
  - reflexivity.
  - discriminate.
  - reflexivity.
Defined.

(** [bad] is blocked, twenty other prompts are blocked after it, and [bad]
    is sent again: the request of that send does not name [bad] as blocked
    and its last message is the user message [bad]. *)
Lemma evicted_prompt_is_sent_again :
  prompt_blocked ("bad", NotOk prompt_blocked_body) = true
  ∧ ∃ r,
      last (snd (session Samples.long_session initial)) = Some r
      ∧ ("bad" ∉ req_blockedUserContents r)
      ∧ last (req_messages r) = Some {| role := "user"; content := "bad" |}.
Proof.
  split; [reflexivity|].
  eexists. split; [vm_compute; reflexivity|]. split.
  - apply (bool_decide_unpack _). vm_compute. exact I.
  - reflexivity.
Qed.

(** The filter of the client looks at user messages only: an assistant
    message with the blocked text as its content is sent. *)
Example assistant_message_with_blocked_text :
  ∃ r,
    snd (session [(GREETING, NotOk prompt_blocked_body);
                  ("hello", Streamed "hi")] initial)
    = [r;
       {| req_messages := [{| role := "assistant"; content := GREETING |};
                           {| role := "user"; content := "hello" |}];
          req_blockedUserContents := [GREETING] |}].
Proof. eexists. vm_compute. reflexivity. Qed.

(** The retraction of the specification: after [bad] is blocked the
    conversation does not hold it, and the next request names it as
    blocked and does not carry it. *)
Example turn_retraction :
  session [("bad", NotOk prompt_blocked_body); ("hello", Streamed "hi")] initial
  = ({| chatHistory := [{| role := "assistant"; content := GREETING |};
                        {| role := "user"; content := "hello" |};
                        {| role := "assistant"; content := "hi" |}];
        blockedUserContents := ["bad"];
        isProcessing := false;
        lastSentUserText := "hello" |},
     [{| req_messages := [{| role := "assistant"; content := GREETING |};
                          {| role := "user"; content := "bad" |}];
         req_blockedUserContents := [] |};
      {| req_messages := [{| role := "assistant"; content := GREETING |};
                          {| role := "user"; content := "hello" |}];
         req_blockedUserContents := ["bad"] |}]).
Proof. vm_compute. reflexivity. Qed.

End ClientFacts.

(** * Further properties of the sanitiser *)

Module SanitizerFacts.

Import Server Chat Text ServerFacts.

(** *** Case-insensitive search *)

Lemma append_cons c (a b : string) :
  (String c a ++ b)%string = String c (a ++ b)%string.
Proof. reflexivity. Qed.

Lemma append_empty (b : string) : ("" ++ b)%string = b.
Proof. reflexivity. Qed.

Lemma starts_with_ci_spec p : forall s,
  starts_with_ci p s = true
  <-> ∃ m b : string, s = (m ++ b)%string ∧ lower_string m = lower_string p.
Proof.
  induction p as [|c p IH]; intros s; simpl.
  - split; [|done]. intros _. by exists ""%string, s.
  - destruct s as [|d s].
    + split; [done|]. intros ([|? m] & b & Hs & Hm); [done|].
      by rewrite append_cons in Hs.
    + rewrite andb_true_iff, bool_decide_eq_true, IH. split.
      * intros (Hcd & m & b & -> & Hm). exists (String d m), b.
        split; [done|]. simpl. by rewrite Hcd, Hm.
      * intros ([|e m] & b & Hs & Hm); [done|].
        rewrite append_cons in Hs. simpl in Hm. simplify_eq.
        split; [done|]. by exists m, b.
Qed.

Lemma test_ci_spec p : forall s, test_ci p s = true <-> contains_ci p s.
Proof.
  induction s as [|d s IH]; simpl.
  - rewrite orb_false_r, starts_with_ci_spec. split.
    + intros (m & b & Hs & Hm). by exists ""%string, m, b.
    + intros ([|? a] & m & b & Hs & Hm); [|by rewrite append_cons in Hs].
      rewrite append_empty in Hs. by exists m, b.
  - rewrite orb_true_iff, starts_with_ci_spec, IH. split.
    + intros [(m & b & Hs & Hm)|(a & m & b & -> & Hm)].
      * by exists ""%string, m, b.
      * by exists (String d a), m, b.
    + intros ([|e a] & m & b & Hs & Hm).
      * rewrite append_empty in Hs. left. by exists m, b.
      * rewrite append_cons in Hs. simplify_eq. right. by exists a, m, b.
Qed.

(** X1: a message is taken for a guardrail notice exactly when its role
    is [assistant] and its content is a string holding [blocked by
    guardrails] as a substring, letter case apart; the test throws on
    [null] and on nothing else. *)
Theorem guardrail_notice_is_substring_match (m : value) :
  (looksLikeGuardrailNotice m = Normal true
   <-> nullish m = false
       ∧ prop m "role" = VStr "assistant"
       ∧ ∃ s, prop m "content" = VStr s
              ∧ contains_ci "blocked by guardrails" s)
  ∧ (nullish m = true <-> looksLikeGuardrailNotice m = Throw TypeError).
Proof.
  unfold looksLikeGuardrailNotice, get.
  destruct (nullish m) eqn:Hm; simpl.
  { split; [|done]. split; [done|]. by intros [? _]. }
  split; [|split; [done|]].
  2:{ destruct (is_str _ _); [|done].
      by destruct (prop m "content"). }
  destruct (prop m "role") as [| | | |r| |] eqn:Hr; simpl;
    try (split; [done|]; by intros (_ & ? & _)).
  case_bool_decide as Ha; simpl.
  2:{ split; [done|]. intros (_ & [= ->] & _). done. }
  subst r.
  destruct (prop m "content") as [| | | |c| |] eqn:Hc; simpl;
    try (split; [done|]; by intros (_ & _ & ? & ? & _)).
  split.
  - intros [= Ht]. apply test_ci_spec in Ht.
    split; [done|]. split; [done|]. by exists c.
  - intros (_ & _ & s & [= <-] & Ht). apply test_ci_spec in Ht.
    unfold mret, completion_ret. by rewrite Ht.
Qed.

(** *** What reaches the model *)

Lemma sublist_removelast {A} (l : list A) : removelast l `sublist_of` l.
Proof.
  destruct l as [|x l _] using rev_ind; [done|].
  rewrite removelast_last. by apply sublist_inserts_r.
Qed.

Lemma loop_body_sublist blocked cs m cs' seen :
  loop_body blocked cs m = Normal cs' ->
  cs `sublist_of` seen ->
  cs' `sublist_of` seen ++ [m].
Proof.
  intros Hrun Hcs. unfold loop_body, get in Hrun.
  assert (Hskip : cs `sublist_of` seen ++ [m]) by by apply sublist_inserts_r.
  destruct (nullish m); [done|]. simpl in Hrun.
  destruct (is_str (prop m "role") "system"); [by injection Hrun as <-|].
  destruct (is_blocked_user blocked m) as [[]|e]; simpl in Hrun;
    [by injection Hrun as <-| |done].
  destruct (looksLikeGuardrailNotice m) as [[]|e]; simpl in Hrun; [| |done].
  - destruct (last_is_user cs) as [[]|e]; simpl in Hrun; [| |done];
      injection Hrun as <-; [|done].
    etrans; [apply sublist_removelast|done].
  - injection Hrun as <-. by apply sublist_app.
Qed.

Lemma for_each_sublist blocked raw : forall cs cs' seen,
  for_each blocked cs raw = Normal cs' ->
  cs `sublist_of` seen ->
  cs' `sublist_of` seen ++ raw.
Proof.
  induction raw as [|m raw IH]; intros cs cs' seen Hrun Hcs.
  - injection Hrun as <-. by rewrite app_nil_r.
  - simpl in Hrun.
    destruct (loop_body blocked cs m) as [cs1|e] eqn:E; [|done].
    simpl in Hrun. rewrite (cons_middle m seen raw), app_assoc.
    eapply IH; [done|]. by eapply loop_body_sublist.
Qed.

Lemma nullish_dec_all (raw : list value) :
  Forall (fun m => nullish m = false) raw
  ∨ Exists (fun m => nullish m = true) raw.
Proof.
  induction raw as [|m raw [IH|IH]].
  - left. constructor.
  - destruct (nullish m) eqn:Hm.
    + right. by left.
    + left. by constructor.
  - right. by right.
Qed.

(** X2: whatever values the history holds, [buildModelMessages] either
    throws, which it does exactly when one of them is [null], or returns
    the system message followed by messages of the history in the order
    they had there: it neither reorders nor adds nor alters a message. *)
Theorem sanitizer_keeps_order (raw blocked : list value) :
  (Exists (fun m => nullish m = true) raw
   ∧ buildModelMessages raw blocked = Throw TypeError)
  ∨ (Forall (fun m => nullish m = false) raw
     ∧ ∃ rest,
         buildModelMessages raw blocked = Normal (system_message :: rest)
         ∧ rest `sublist_of` raw).
Proof.
  destruct (nullish_dec_all raw) as [Hok|Hnull].
  - right. split; [done|].
    destruct (for_each_total blocked raw [] Hok (Forall_nil_2 _)) as [cs Hcs].
    exists (windowed cs). unfold buildModelMessages. rewrite Hcs.
    split; [done|].
    pose proof (for_each_sublist blocked raw [] cs [] Hcs (sublist_nil_l _))
      as Hsub.
    simpl in Hsub. unfold windowed.
    destruct (16 <? length cs)%nat; [|done].
    etrans; [apply sublist_drop|done].
  - left. split; [done|]. unfold buildModelMessages.
    by rewrite for_each_null.
Qed.

(** X3: whatever the body of the request, the messages handed to the
    model start with the worker's own system message, hold no other
    message whose role is [system], and are at most 17; when the body
    cannot be read that far the model is not called and the reply is the
    internal error. *)
Theorem model_sees_one_system_message
    (AI_run : list value -> completion AiResponse)
    (request_json : completion value) :
  (∃ e, model_messages request_json = Throw e
        ∧ handleChatRequest AI_run request_json = internal_error)
  ∨ (∃ rest,
       model_messages request_json = Normal (system_message :: rest)
       ∧ Forall (fun m => is_str (prop m "role") "system" = false) rest
       ∧ (length (system_message :: rest) ≤ 17)%nat
       ∧ handleChatRequest AI_run request_json
         = match respond AI_run (system_message :: rest) with
           | Normal r => r
           | Throw _ => internal_error
           end).
Proof.
  destruct request_json as [raw|e].
  2:{ left. by exists e. }
  destruct (nullish_dec_all (array_or_empty raw "messages")) as [Hok|Hnull].
  - right.
    destruct (buildModelMessages_any_values
                (array_or_empty raw "messages")
                (array_or_empty raw "blockedUserContents") Hok)
      as (rest & Hrun & Hkept & Hlen).
    exists rest.
    assert (Hmm : model_messages (Normal raw) = Normal (system_message :: rest))
      by done.
    split; [done|]. split.
    { eapply Forall_impl; [done|]. by intros m [? _]. }
    split; [simpl; lia|].
    unfold handleChatRequest. by rewrite Hmm.
  - left. exists TypeError.
    assert (Hmm : model_messages (Normal raw) = Throw TypeError).
    { unfold model_messages, buildModelMessages. simpl.
      by rewrite for_each_null. }
    split; [done|]. unfold handleChatRequest. by rewrite Hmm.
Qed.

(** *** Typed histories *)

Lemma pushed_benign B m : pushed B m = true <-> benign B m.
Proof.
  unfold pushed, benign, blocked_user, guardrail_notice.
  rewrite <- (test_ci_spec "blocked by guardrails" (content m)).
  rewrite !andb_true_iff, !negb_true_iff, !andb_false_iff,
    !bool_decide_eq_false.
  destruct (decide (role m = "user")), (decide (role m = "assistant")),
           (test_ci "blocked by guardrails" (content m));
    intuition congruence.
Qed.

(** X4: a history without system messages, blocked user messages and
    guardrail notices goes to the model as it is, cut to its last 16
    messages, after the system message. *)
Theorem benign_history_is_forwarded (H : list ChatMessage) (B : list string) :
  Forall (benign B) H ->
  buildModelMessages (to_values H) (to_set B)
  = Normal (system_message :: to_values (drop (length H - 16) H)).
Proof.
  intros Hb. rewrite buildModelMessages_to_values.
  rewrite (run_only_pushed B H []); [done|].
  eapply Forall_impl; [done|]. intros m. apply pushed_benign.
Qed.

Lemma benign_history_is_forwarded_witness :
  buildModelMessages
    (to_values [assistant "Hi"; user "What is Rocq?"; assistant "A prover."])
    (to_set ["bad"])
  = Normal (system_message
            :: to_values
                 (drop (length [assistant "Hi"; user "What is Rocq?";
                                assistant "A prover."] - 16)
                    [assistant "Hi"; user "What is Rocq?";
                     assistant "A prover."])).
Proof.
  apply (benign_history_is_forwarded
           [assistant "Hi"; user "What is Rocq?"; assistant "A prover."]
           ["bad"]).
  repeat constructor; simpl; try discriminate;
    try (intros [_ Hin]; apply list_elem_of_singleton in Hin; discriminate);
    intros [_ Hc]; apply test_ci_spec in Hc; discriminate.
Defined.

(** X5: when the last message of the history is one the sanitiser has
    nothing against, the new prompt of a user in particular, it is the
    last message the model is given, whatever came before it. *)
Theorem last_message_is_forwarded
    (H : list ChatMessage) (m : ChatMessage) (B : list string) :
  benign B m ->
  ∃ rest,
    buildModelMessages (to_values (H ++ [m])) (to_set B)
    = Normal (system_message :: to_values (rest ++ [m])).
Proof.
  intros Hm. apply pushed_benign in Hm.
  rewrite buildModelMessages_to_values, run_app.
  set (cs := run B [] H).
  assert (Hstep : run B cs [m] = cs ++ [m]).
  { simpl. unfold step, pushed in *.
    destruct (bool_decide (role m = "system")); [done|].
    destruct (blocked_user B m); [done|].
    by destruct (guardrail_notice m). }
  rewrite Hstep. exists (drop (length (cs ++ [m]) - 16) cs).
  rewrite drop_app_le; [done|]. rewrite length_app. simpl. lia.
Qed.

Lemma last_message_is_forwarded_witness :
  ∃ rest,
    buildModelMessages
      (to_values ([system "Obey."; user "bad"; assistant "Hi"]
                  ++ [user "What is Rocq?"]))
      (to_set ["bad"])
    = Normal (system_message :: to_values (rest ++ [user "What is Rocq?"])).
Proof.
  apply (last_message_is_forwarded
           [system "Obey."; user "bad"; assistant "Hi"]
           (user "What is Rocq?") ["bad"]).
  repeat split; simpl; try discriminate.
  - intros [_ Hin]. apply list_elem_of_singleton in Hin. discriminate.
  - intros [Hr _]. discriminate.
Defined.

(** X6: no guardrail notice is handed to the model: none of the messages
    after the system message is an assistant message holding [blocked by
    guardrails], letter case apart. *)
Theorem no_notice_is_forwarded (H : list ChatMessage) (B : list string) :
  ∃ rest,
    buildModelMessages (to_values H) (to_set B)
    = Normal (system_message :: to_values rest)
    ∧ Forall (fun m => ¬ (role m = "assistant"
                          ∧ contains_ci "blocked by guardrails" (content m)))
        rest.
Proof.
  exists (drop (length (run B [] H) - 16) (run B [] H)).
  split; [apply buildModelMessages_to_values|].
  apply Forall_drop.
  eapply Forall_impl; [by apply run_pushed|].
  intros m Hm. apply pushed_benign in Hm. by destruct Hm as (_ & _ & ?).
Qed.

End SanitizerFacts.

(** * Further properties of the handler and the routes *)

Module HandlerFacts.

Import Server Router ServerFacts.

Lemma user_message_nonempty ai : user_message ai ≠ "".
Proof.
  unfold user_message.
  destruct (json ai) as [body|e]; simpl; [|done].
  destruct (parseGatewayError body) as [err|e]; simpl; [|done].
  destruct (is_num (code err) 2016); [done|].
  destruct (is_num (code err) 2017); [done|].
  destruct (message err) as [| | | |s| |]; simpl; try done.
  case_bool_decide; simpl; done.
Qed.

(** X7: every reply of the chat handler is either an event stream with
    status 200 holding, for each chunk of an [ok] response of the model
    and in order, the frame [data: ] followed by the text the decoder
    makes of that chunk on its own and two line breaks, or a JSON object
    whose only field is [error], holding a text that is not empty. *)
Theorem reply_is_stream_or_error
    (AI_run : list value -> completion AiResponse)
    (request_json : completion value) :
  (∃ msgs ai,
     model_messages request_json = Normal msgs
     ∧ AI_run msgs = Normal ai
     ∧ ok ai = true
     ∧ resp_status (handleChatRequest AI_run request_json) = 200
     ∧ resp_body (handleChatRequest AI_run request_json)
       = EventStream
           (List.map
              (fun chunk =>
                 ("data: " ++ TextDecoder_decode chunk
                  ++ newline ++ newline)%string)
              (default [] (chunks ai))))
  ∨ (∃ text,
       text ≠ ""
       ∧ resp_body (handleChatRequest AI_run request_json)
         = JsonBody (VObj [("error", VStr text)])).
Proof.
  unfold handleChatRequest.
  destruct (model_messages request_json) as [msgs|e]; simpl.
  2:{ right. by exists "Failed to process request". }
  unfold respond.
  destruct (AI_run msgs) as [ai|e] eqn:Hai; simpl.
  2:{ right. by exists "Failed to process request". }
  destruct (ok ai) eqn:Hok; simpl.
  - left. by exists msgs, ai.
  - right. destruct (new_Response (failure_response ai)) as [r|e] eqn:Hr.
    + unfold new_Response in Hr.
      destruct (negb _); [done|].
      destruct (null_body_status _); [done|].
      injection Hr as <-. exists (user_message ai).
      split; [apply user_message_nonempty|done].
    + by exists "Failed to process request".
Qed.

(** A chunk that ends inside a character, the rest of the character at
    the head of the next chunk, and a chunk that starts with a byte
    order mark. *)
Example chunks_decoded_on_their_own :
  TextDecoder_decode (String (ascii_of_nat 195) "")
  = REPLACEMENT
  ∧ TextDecoder_decode (String (ascii_of_nat 169) "x")
    = (REPLACEMENT ++ "x")%string
  ∧ TextDecoder_decode (String (ascii_of_nat 195) (String (ascii_of_nat 169) "x"))
    = String (ascii_of_nat 195) (String (ascii_of_nat 169) "x")
  ∧ TextDecoder_decode (BOM ++ "x")%string = "x".
Proof. repeat split. Qed.

(** X8: the model is consulted for a [POST] to [/api/chat] and for no
    other request: any other method on that path is answered 405, any
    other path under [/api/] is answered 404, and every path outside
    [/api/] goes to the static assets, whatever the model would do. *)
Theorem only_post_chat_reaches_model
    (Asset : Type) (ASSETS_fetch : Request -> Asset)
    (AI_run AI_run' : list value -> completion AiResponse)
    (request : Request) :
  (pathname request = "/api/chat" -> method request = "POST" ->
   fetch Asset ASSETS_fetch AI_run request
   = FromChat (handleChatRequest AI_run (json_body request)))
  ∧ (¬ (pathname request = "/api/chat" ∧ method request = "POST") ->
     fetch Asset ASSETS_fetch AI_run request
     = fetch Asset ASSETS_fetch AI_run' request
     ∧ fetch Asset ASSETS_fetch AI_run request
       = if String.prefix "/api/" (pathname request) then
           if bool_decide (pathname request = "/api/chat")
           then Plain 405 "Method not allowed"
           else Plain 404 "Not found"
         else FromAssets (ASSETS_fetch request)).
Proof.
  unfold fetch. split.
  - intros -> ->. done.
  - intros Hnot.
    destruct (decide (pathname request = "/")) as [Hroot|Hroot].
    { rewrite Hroot. done. }
    rewrite (bool_decide_eq_false_2 _ Hroot). simpl.
    destruct (String.prefix "/api/" (pathname request)); simpl; [|done].
    case_bool_decide as Hchat; [|done].
    destruct (decide (method request = "POST")) as [Hpost|Hpost].
    { exfalso. by apply Hnot. }
    by rewrite (bool_decide_eq_false_2 _ Hpost).
Qed.

Lemma only_post_chat_reaches_model_witness :
  fetch unit (fun _ => tt) Samples.streaming_model
    {| pathname := "/api/chat"; method := "GET";
       json_body := Normal Samples.body_without_arrays |}
  = fetch unit (fun _ => tt) (fun _ => Normal Samples.prompt_rejection)
      {| pathname := "/api/chat"; method := "GET";
         json_body := Normal Samples.body_without_arrays |}
  ∧ fetch unit (fun _ => tt) Samples.streaming_model
      {| pathname := "/api/chat"; method := "GET";
         json_body := Normal Samples.body_without_arrays |}
    = Plain 405 "Method not allowed".
Proof.
  apply (only_post_chat_reaches_model unit (fun _ => tt)
           Samples.streaming_model
           (fun _ => Normal Samples.prompt_rejection)
           {| pathname := "/api/chat"; method := "GET";
              json_body := Normal Samples.body_without_arrays |}).
  simpl. intros [_ Hm]. discriminate.
Defined.

(** Paths next to the chat route. *)
Example routes_near_chat :
  fetch unit (fun _ => tt) Samples.streaming_model
    {| pathname := "/api/chat/"; method := "POST"; json_body := Normal VNull |}
  = Plain 404 "Not found"
  ∧ fetch unit (fun _ => tt) Samples.streaming_model
      {| pathname := "/api"; method := "POST"; json_body := Normal VNull |}
    = FromAssets tt
  ∧ fetch unit (fun _ => tt) Samples.streaming_model
      {| pathname := "/"; method := "POST"; json_body := Normal VNull |}
    = FromAssets tt.
Proof. repeat split. Qed.

End HandlerFacts.

(** * The event stream, from the worker to the client *)

Module ReaderFacts.

Import Server Reader Text.

Lemma append_empty_r (a : string) : (a ++ "")%string = a.
Proof.
  induction a as [|c a IH]; [done|].
  rewrite SanitizerFacts.append_cons. by rewrite IH.
Qed.

Section WithParser.

Variable JSON_parse : string -> completion value.

(** A line adds the [response] of its payload when it starts with
    [data:], and nothing otherwise. *)
Lemma read_line_spec acc line :
  read_line JSON_parse acc line
  = (acc ++ (if String.prefix "data:" line
             then response_text JSON_parse (slice 5 line)
             else ""))%string.
Proof.
  unfold read_line, response_text.
  set (payload := slice 5 line).
  destruct (String.prefix "data:" line); cbn [negb];
    [|by rewrite append_empty_r].
  destruct (JSON_parse payload) as [json|e]; cbn [mbind completion_bind];
    [|by rewrite append_empty_r].
  unfold get, get_opt.
  destruct (nullish json); cbn [mbind completion_bind];
    [by rewrite append_empty_r|].
  destruct (prop json "response"); simpl; by rewrite ?append_empty_r.
Qed.

Lemma split_lines_no_newline s :
  has_newline s = false -> split_lines s = [s].
Proof.
  induction s as [|c s IH]; simpl; [done|].
  case_bool_decide; simpl; [done|]. intros Hs. by rewrite IH.
Qed.

Lemma split_lines_at_newline a b :
  has_newline a = false ->
  split_lines (a ++ String (ascii_of_nat 10) b) = a :: split_lines b.
Proof.
  induction a as [|c a IH]; simpl.
  - done.
  - case_bool_decide; simpl; [done|]. intros Ha. by rewrite IH.
Qed.

Lemma append_assoc_string (a b c : string) :
  ((a ++ b) ++ c)%string = (a ++ (b ++ c))%string.
Proof.
  induction a as [|x a IH]; [done|].
  rewrite !SanitizerFacts.append_cons. by rewrite IH.
Qed.

Lemma sse_frame_lines chunk :
  has_newline chunk = false ->
  split_lines (sse_frame chunk) = [("data: " ++ chunk)%string; ""; ""].
Proof.
  intros Hc. unfold sse_frame, newline.
  rewrite <- append_assoc_string.
  change (String (ascii_of_nat 10) "" ++ String (ascii_of_nat 10) "")%string
    with (String (ascii_of_nat 10) (String (ascii_of_nat 10) "")).
  by rewrite split_lines_at_newline.
Qed.

Lemma read_chunk_frame acc chunk :
  has_newline chunk = false ->
  read_chunk JSON_parse acc (sse_frame chunk)
  = (acc ++ response_text JSON_parse (" " ++ chunk))%string.
Proof.
  intros Hc. unfold read_chunk. rewrite (sse_frame_lines chunk Hc).
  cbn [fold_left]. rewrite !read_line_spec.
  change (String.prefix "data:" "") with false.
  change (String.prefix "data:" ("data: " ++ chunk)) with true.
  change (slice 5 ("data: " ++ chunk)) with (" " ++ chunk)%string.
  cbn iota. by rewrite !append_empty_r.
Qed.

Lemma read_frames chunks : forall acc,
  Forall (fun c => has_newline c = false) chunks ->
  fold_left (read_chunk JSON_parse) (List.map sse_frame chunks) acc
  = (acc ++ concat_all
              (List.map (fun c => response_text JSON_parse (" " ++ c)) chunks))
    %string.
Proof.
  induction chunks as [|c chunks IH]; intros acc Hcs; simpl.
  - by rewrite append_empty_r.
  - apply Forall_cons in Hcs as [Hc Hcs].
    rewrite read_chunk_frame, IH by done.
    by rewrite append_assoc_string.
Qed.

(** X9: the frames the worker writes for the chunks of the model's
    response, each reaching the client's loop as one chunk of text, give
    back what the worker decoded: when the text decoded from no chunk
    holds a line break, the text the client accumulates is made of the
    [response] fields of those texts, in order, each parsed after the
    one space the frame puts before it; a text that does not parse adds
    nothing. *)
Theorem frames_read_back (ai : AiResponse) (chunks : list string) :
  Server.chunks ai = Some chunks ->
  Forall (fun c => has_newline (TextDecoder_decode c) = false) chunks ->
  ∃ frames,
    resp_body (stream_response ai) = EventStream frames
    ∧ length frames = length chunks
    ∧ read_stream JSON_parse frames
      = concat_all
          (List.map
             (fun c => response_text JSON_parse (" " ++ TextDecoder_decode c))
             chunks).
Proof.
  intros Hai Hcs.
  exists (List.map sse_frame (List.map TextDecoder_decode chunks)).
  unfold stream_response. rewrite Hai. simpl.
  split; [by rewrite List.map_map|].
  split; [by rewrite !length_map|].
  unfold read_stream. rewrite read_frames.
  - by rewrite List.map_map.
  - by apply Forall_map.
Qed.

Lemma read_lines lines : forall acc,
  fold_left (read_line JSON_parse) lines acc
  = (acc ++ concat_all (List.map (line_text JSON_parse) lines))%string.
Proof.
  induction lines as [|line lines IH]; intros acc; simpl.
  - by rewrite append_empty_r.
  - rewrite IH, read_line_spec. unfold line_text at 2.
    by rewrite append_assoc_string.
Qed.

Lemma concat_all_app l k :
  concat_all (l ++ k) = (concat_all l ++ concat_all k)%string.
Proof.
  induction l as [|x l IH]; [done|].
  change (concat_all ((x :: l) ++ k)) with (x ++ concat_all (l ++ k))%string.
  change (concat_all (x :: l)) with (x ++ concat_all l)%string.
  by rewrite IH, append_assoc_string.
Qed.

Lemma read_chunks chunks : forall acc,
  fold_left (read_chunk JSON_parse) chunks acc
  = (acc ++ concat_all
              (List.map (line_text JSON_parse)
                 (List.flat_map split_lines chunks)))%string.
Proof.
  induction chunks as [|c chunks IH]; intros acc; simpl.
  - by rewrite append_empty_r.
  - rewrite IH. unfold read_chunk at 1. rewrite read_lines.
    by rewrite map_app, concat_all_app, append_assoc_string.
Qed.

(** X16: the text the client accumulates is made, in order, of the
    string [response] fields of the payloads of the lines that start
    with [data:], the lines being those of each chunk of text taken on
    its own; other lines, and payloads that do not parse, parse to
    [null] or have no such field, add nothing and stop nothing.  A line
    that a chunk boundary cuts in two is read as two lines. *)
Theorem reader_collects_responses (chunks : list string) :
  read_stream JSON_parse chunks
  = concat_all
      (List.map (line_text JSON_parse) (List.flat_map split_lines chunks)).
Proof. unfold read_stream. by rewrite read_chunks. Qed.

End WithParser.

Lemma frames_read_back_witness :
  ∃ frames,
    resp_body (stream_response Samples.two_chunks) = EventStream frames
    ∧ length frames = length ["first"; "second"]
    ∧ read_stream Samples.two_payloads frames
      = concat_all
          (List.map
             (fun c =>
                response_text Samples.two_payloads
                  (" " ++ TextDecoder_decode c))
             ["first"; "second"]).
Proof.
  apply (frames_read_back Samples.two_payloads Samples.two_chunks
           ["first"; "second"]).
  - reflexivity.
  - repeat constructor.
Defined.

(** The two chunks, framed by the worker and read by the client; and a
    line cut by a chunk boundary, of which neither part is a line with a
    payload that parses. *)
Example two_chunks_read :
  read_stream Samples.two_payloads
    (List.map sse_frame ["first"; "second"]) = "Hello"
  ∧ read_stream Samples.two_payloads ["data: fir"; "st"] = "".
Proof. split; reflexivity. Qed.

End ReaderFacts.

(** * Further properties of the client *)

Module SessionFacts.

Import Client Conversation ClientFacts.

(** *** Retracting *)

Lemma popLastUserTurn_from_none history : forall n,
  Forall (fun m => role m ≠ "user") history ->
  popLastUserTurn_from n history = history.
Proof.
  intros n Hh. induction n as [|i IH]; [done|]. simpl.
  destruct (history !! i) as [m|] eqn:Hm; [|done].
  rewrite bool_decide_eq_false_2; [done|].
  eapply Forall_lookup_1 in Hh; done.
Qed.

Lemma popLastUserTurn_from_last before u after :
  role u = "user" ->
  Forall (fun m => role m ≠ "user") after ->
  forall j, (j ≤ length after)%nat ->
  popLastUserTurn_from (length before + 1 + j) (before ++ u :: after)
  = before ++ after.
Proof.
  intros Hu Hafter. induction j as [|j IH]; intros Hj.
  - rewrite Nat.add_0_r, Nat.add_1_r. simpl.
    rewrite list_lookup_middle by done.
    rewrite bool_decide_eq_true_2 by done.
    apply delete_middle.
  - replace (length before + 1 + S j)%nat with (S (length before + 1 + j))
      by lia.
    simpl.
    destruct (lookup_lt_is_Some_2 after j) as [m Hm]; [lia|].
    replace ((before ++ u :: after) !! (length before + 1 + j)%nat)
      with (Some m).
    2:{ rewrite (cons_middle u before after), app_assoc.
        rewrite lookup_app_r by (rewrite length_app; simpl; lia).
        rewrite length_app. simpl. rewrite <- Hm. f_equal. lia. }
    rewrite bool_decide_eq_false_2.
    + apply IH. lia.
    + eapply Forall_lookup_1 in Hafter; done.
Qed.

(** X10: [popLastUserTurn] takes out the last user entry of the
    conversation and nothing else, the entries before and after it
    keeping their order; a conversation without user entries is left as
    it is. *)
Theorem popLastUserTurn_removes_last_user
    (before after : list Message) (u : Message) :
  role u = "user" ->
  Forall (fun m => role m ≠ "user") after ->
  popLastUserTurn (before ++ u :: after) = before ++ after
  ∧ popLastUserTurn after = after.
Proof.
  intros Hu Hafter. split.
  - unfold popLastUserTurn.
    replace (length (before ++ u :: after))
      with (length before + 1 + length after)%nat
      by (rewrite length_app; simpl; lia).
    by apply popLastUserTurn_from_last.
  - by apply popLastUserTurn_from_none.
Qed.

Lemma popLastUserTurn_removes_last_user_witness :
  popLastUserTurn
    ([{| role := "assistant"; content := "Hi" |};
      {| role := "user"; content := "one" |}]
     ++ {| role := "user"; content := "two" |}
        :: [{| role := "assistant"; content := "answer" |}])
  = [{| role := "assistant"; content := "Hi" |};
     {| role := "user"; content := "one" |}]
    ++ [{| role := "assistant"; content := "answer" |}]
  ∧ popLastUserTurn [{| role := "assistant"; content := "answer" |}]
    = [{| role := "assistant"; content := "answer" |}].
Proof.
  apply (popLastUserTurn_removes_last_user
           [{| role := "assistant"; content := "Hi" |};
            {| role := "user"; content := "one" |}]
           [{| role := "assistant"; content := "answer" |}]
           {| role := "user"; content := "two" |}).
  - reflexivity.
  - repeat constructor. simpl. discriminate.
Defined.

(** *** Sessions *)

Lemma sendMessage_effect u o st :
  isProcessing st = false -> u ≠ "" ->
  sendMessage u o st
  = ({| chatHistory := chatHistory st ++ appended u o;
        blockedUserContents :=
          if prompt_blocked (u, o)
          then rememberBlockedUser u (blockedUserContents st)
          else blockedUserContents st;
        isProcessing := false;
        lastSentUserText := u |},
     Some {| req_messages :=
               sanitizedMessages
                 (chatHistory st ++ [{| role := "user"; content := u |}])
                 (blockedUserContents st);
             req_blockedUserContents := blockedUserContents st |}).
Proof.
  intros Hidle Hu. unfold sendMessage, appended.
  rewrite Hidle, bool_decide_eq_false_2 by done. simpl.
  destruct o as [data|acc|]; simpl.
  - destruct (wasPromptBlocked (mapError data)).
    + by rewrite popLastUserTurn_pushed, app_nil_r.
    + done.
  - by rewrite <- app_assoc.
  - done.
Qed.

Lemma sendMessage_busy u o st :
  isProcessing st = true -> sendMessage u o st = (st, None).
Proof.
  intros Hbusy. unfold sendMessage. rewrite Hbusy.
  by rewrite orb_true_r.
Qed.

Lemma appended_own u o : u ≠ "" -> Forall own_message (appended u o).
Proof.
  intros Hu. unfold appended.
  assert (Huser : own_message {| role := "user"; content := u |})
    by (split; [by left|done]).
  destruct o as [data|acc|].
  - destruct (wasPromptBlocked _); [done|]. by constructor.
  - constructor; [done|]. constructor; [|done].
    split; [by right|]. simpl. by case_bool_decide.
  - by constructor.
Qed.

Lemma rememberBlockedUser_no_empty t l :
  "" ∉ l -> "" ∉ rememberBlockedUser t l.
Proof.
  intros Hl.
  destruct (decide (t = "")) as [->|Ht]; [done|].
  destruct (decide (t ∈ l)) as [Hin|Hnin].
  - by rewrite rememberBlockedUser_present.
  - rewrite rememberBlockedUser_new by done.
    assert (Htail : "" ∉ tail l).
    { intros Hin. apply Hl. destruct l; [done|]. by right. }
    destruct (_ <? _)%nat; intros [?|Hin]%elem_of_app; try done;
      apply list_elem_of_singleton in Hin; done.
Qed.

Lemma sanitizedMessages_Forall (P : Message -> Prop) history blocked :
  Forall P history -> Forall P (sanitizedMessages history blocked).
Proof.
  intros Hh. unfold sanitizedMessages.
  induction Hh as [|m history Hm Hh IH]; simpl; [done|].
  destruct (negb _); [by constructor|done].
Qed.

Lemma sendMessage_well_formed u o st :
  well_formed st ->
  well_formed (fst (sendMessage u o st))
  ∧ Forall well_formed_request (option_list (snd (sendMessage u o st))).
Proof.
  intros (Hidle & Hhead & Hown & Hnd & Hlen & Hne).
  destruct (decide (u = "")) as [->|Hu].
  { rewrite sendMessage_ignored. simpl. by split. }
  rewrite (sendMessage_effect u o st Hidle Hu).
  set (b := prompt_blocked (u, o)).
  unfold well_formed, well_formed_request.
  cbn [fst snd option_list chatHistory blockedUserContents isProcessing
       req_messages req_blockedUserContents].
  split.
  - split; [done|]. split.
    { destruct (chatHistory st); [done|]. done. }
    split.
    { apply Forall_app. split; [done|]. by apply appended_own. }
    destruct b; [|done].
    destruct (rememberBlockedUser_invariant u _ Hnd Hlen) as [Hnd' Hlen'].
    split; [done|]. split; [done|].
    by apply rememberBlockedUser_no_empty.
  - constructor; [|done]. split; [|done].
    apply sanitizedMessages_Forall, Forall_app. split; [done|].
    constructor; [|done]. split; [by left|done].
Qed.

Lemma session_well_formed turns : forall st,
  well_formed st ->
  well_formed (fst (session turns st))
  ∧ Forall well_formed_request (snd (session turns st)).
Proof.
  induction turns as [|[u o] turns IH]; intros st Hst; [by split|].
  cbn [session].
  destruct (sendMessage_well_formed u o st Hst) as [Hst' Hreq].
  destruct (sendMessage u o st) as [st' r]. simpl in Hst', Hreq.
  destruct (IH st' Hst') as [Hend Hreqs].
  destruct (session turns st') as [st'' rs]. simpl in *.
  split; [done|]. by apply Forall_app.
Qed.

(** X11: at every point of a session begun in the initial state the
    client is idle, its conversation starts with the greeting and holds
    only user and assistant messages with some content, and its block
    list holds at most 20 texts, all different and none empty; every
    request sent on the way holds only such messages and such a list. *)
Theorem session_is_well_formed (turns : list (string * Outcome)) :
  well_formed (fst (session turns initial))
  ∧ Forall well_formed_request (snd (session turns initial)).
Proof.
  apply session_well_formed.
  split; [done|]. split; [done|]. split.
  { constructor; [|constructor]. split; [by right|done]. }
  split; [constructor|]. split; [simpl; lia|].
  by intros ?%elem_of_nil.
Qed.

(** X12: over a session the conversation only grows at its end: the
    conversation of any state is a prefix of the conversation any sends
    lead to from it, the retraction of a blocked prompt undoing no more
    than the send's own push. *)
Theorem conversation_only_grows
    (turns : list (string * Outcome)) (st : State) :
  chatHistory st `prefix_of` chatHistory (fst (session turns st)).
Proof.
  revert st. induction turns as [|[u o] turns IH]; intros st; [done|].
  cbn [session].
  assert (Hstep : chatHistory st
                  `prefix_of` chatHistory (fst (sendMessage u o st))).
  { destruct (isProcessing st) eqn:Hidle.
    - by rewrite sendMessage_busy.
    - destruct (decide (u = "")) as [->|Hu].
      + by rewrite sendMessage_ignored.
      + rewrite (sendMessage_effect u o st Hidle Hu). simpl.
        by apply prefix_app_r. }
  destruct (sendMessage u o st) as [st' r]. simpl in Hstep.
  specialize (IH st').
  destruct (session turns st') as [st'' rs]. simpl in *.
  by etrans.
Qed.

End SessionFacts.

(** * The client and the worker together *)

Module WireFacts.

Import Text Wire ServerFacts ClientFacts SessionFacts.








(** The coercion of an error body that is not a string: an array is
    joined, and an object with an own [toString] makes the test throw,
    which [mapError] catches. *)
Example error_bodies_that_are_not_strings :
  to_string (VArr [VStr "a"; VNull; VArr [VNum 1; VNum 2]]) = Normal "a,,1,2"
  ∧ to_string (VArr [VObj [("toString", VNum 1)]]) = Throw TypeError
  ∧ Client.wasPromptBlocked
      (Client.mapError
         (Normal (VObj [("error", VArr [VStr "Prompt was blocked by guardrails"])])))
    = true
  ∧ Client.wasPromptBlocked
      (Client.mapError
         (Normal (VObj [("error",
                         VObj [("toString",
                                VStr "Prompt was blocked by guardrails")])])))
    = false.
Proof. repeat split. Qed.

(** *** Requests of the client in the worker *)

Lemma run_without_blocked B H : forall cs,
  Forall (fun m => Chat.blocked_user B m = false) H ->
  Chat.run B cs H = Chat.run [] cs H.
Proof.
  induction H as [|m H IH]; intros cs HH; [done|].
  apply Forall_cons in HH as [Hm HH]. simpl.
  rewrite <- IH by done. f_equal. unfold Chat.step. rewrite Hm.
  replace (Chat.blocked_user [] m) with false; [done|].
  unfold Chat.blocked_user. symmetry. apply andb_false_iff. right.
  apply bool_decide_eq_false. by intros ?%elem_of_nil.
Qed.

Lemma sanitizedMessages_not_blocked history blocked :
  Forall (fun m => Chat.blocked_user blocked m = false)
    (List.map of_client (Client.sanitizedMessages history blocked)).
Proof.
  unfold Client.sanitizedMessages.
  induction history as [|m history IH]; simpl; [done|].
  destruct (bool_decide (Client.role m = "user")
            && Client.includes blocked (Client.content m)) eqn:E;
    simpl; [done|].
  constructor; [|done]. unfold Chat.blocked_user, of_client. simpl.
  unfold Client.includes in E. done.
Qed.

(** X15: a request the client builds is read by the worker without an
    exception, so that the model is called; and the worker's own filter
    on the block list finds nothing left to drop in it: the messages
    handed to the model are those it would hand over with an empty block
    list. *)
Theorem client_request_reaches_model
    (AI_run : list value -> completion Server.AiResponse)
    (st : Client.State) (u : string) (o : Client.Outcome) :
  Client.isProcessing st = false ->
  u ≠ "" ->
  ∃ st' req rest,
    Client.sendMessage u o st = (st', Some req)
    ∧ Server.model_messages (Normal (request_body req))
      = Normal (Server.system_message :: rest)
    ∧ Server.buildModelMessages
        (Chat.to_values (List.map of_client (Client.req_messages req))) []
      = Normal (Server.system_message :: rest)
    ∧ Server.handleChatRequest AI_run (Normal (request_body req))
      = match Server.respond AI_run (Server.system_message :: rest) with
        | Normal r => r
        | Throw _ => Server.internal_error
        end.
Proof.
  intros Hidle Hu.
  rewrite (sendMessage_effect u o st Hidle Hu).
  eexists _, _, _. split; [reflexivity|].
  set (msgs := Client.sanitizedMessages _ _).
  set (B := Client.blockedUserContents st).
  assert (Hmm : Server.model_messages
                  (Normal (request_body
                     {| Client.req_messages := msgs;
                        Client.req_blockedUserContents := B |}))
                = Server.buildModelMessages
                    (Chat.to_values (List.map of_client msgs)) (Chat.to_set B))
    by reflexivity.
  rewrite buildModelMessages_to_values in Hmm.
  rewrite (run_without_blocked B _ [])
    in Hmm by apply sanitizedMessages_not_blocked.
  split; [exact Hmm|]. split.
  - change (@nil value) with (Chat.to_set []).
    apply buildModelMessages_to_values.
  - unfold Server.handleChatRequest. by rewrite Hmm.
Qed.

Lemma client_request_reaches_model_witness :
  ∃ st' req rest,
    Client.sendMessage "hello" (Client.Streamed "hi") Client.initial
    = (st', Some req)
    ∧ Server.model_messages (Normal (request_body req))
      = Normal (Server.system_message :: rest)
    ∧ Server.buildModelMessages
        (Chat.to_values (List.map of_client (Client.req_messages req))) []
      = Normal (Server.system_message :: rest)
    ∧ Server.handleChatRequest Samples.streaming_model
        (Normal (request_body req))
      = match Server.respond Samples.streaming_model
                (Server.system_message :: rest) with
        | Normal r => r
        | Throw _ => Server.internal_error
        end.
Proof.
  apply (client_request_reaches_model Samples.streaming_model
           Client.initial "hello" (Client.Streamed "hi")).
  - reflexivity.
  - discriminate.
Defined.

End WireFacts.
